(** * EventBus: a shallow embedding of eventbus.hpp

    The development follows the header top-down: the C++ types that
    occur in callback signatures and argument bundles, [CallbackWrapper]
    with its three matching attempts, and [EventBus] with its registry
    ([callbacks_map_]), its id counter ([next_id_]) and its operations.

    Effects are explicit.  Member functions that are not [const] are
    computations of a state-and-exception monad over the machine state
    [Sys]; [const] member functions are functions of the bus value. *)

From stdpp Require Import gmap strings list fin_maps sorting.
From Stdlib Require Import NArith ZArith.

(** ** C++ types and values *)

(** Object types after [std::decay_t]: what an argument bundle stores. *)
Inductive vtype :=
| TInt            (* int *)
| TBool           (* bool *)
| TString         (* std::string *)
| TConstCharPtr   (* const char* *)
| TCharPtr        (* char* *)
| TVectorInt.     (* std::vector<int> *)

(** A declared parameter type, one element of [Args...].  The header
    distinguishes by-value, [const T&] and [T&] declarations (see
    [map_to_source_type]).  A wrapper with a [T&] parameter is rejected
    by the compiler, since [std::apply] hands the callback const
    lvalues; the case is kept for [map_to_source_type]. *)
Inductive ptype :=
| ByValue  (t : vtype)    (* T *)
| ConstRef (t : vtype)    (* const T& *)
| LvalRef  (t : vtype).   (* T& *)

Global Instance vtype_eq_dec : EqDecision vtype.
Proof. solve_decision. Defined.

Global Instance ptype_eq_dec : EqDecision ptype.
Proof. solve_decision. Defined.

(** [std::decay_t] on a parameter declaration. *)
Definition decay_t (p : ptype) : vtype :=
  match p with
  | ByValue t | ConstRef t | LvalRef t => t
  end.

(** Values of the object types.  A character pointer is null ([None])
    or points to NUL-terminated text. *)
Inductive value :=
| VInt (z : Z)
| VBool (b : bool)
| VString (s : string)
| VConstCharPtr (p : option string)
| VCharPtr (p : option string)
| VVectorInt (l : list Z).

Global Instance value_eq_dec : EqDecision value.
Proof. solve_decision. Defined.

Definition type_of (v : value) : vtype :=
  match v with
  | VInt _ => TInt
  | VBool _ => TBool
  | VString _ => TString
  | VConstCharPtr _ => TConstCharPtr
  | VCharPtr _ => TCharPtr
  | VVectorInt _ => TVectorInt
  end.

(** An argument expression at a [publish] call site: a string literal
    (an array of [const char]) or an object of one of the types above. *)
Inductive arg :=
| Literal (s : string)
| Object (v : value).

(** [std::decay_t<Args>(args)]: the literal decays to [const char*]. *)
Definition decay_arg (a : arg) : value :=
  match a with
  | Literal s => VConstCharPtr (Some s)
  | Object v => v
  end.

(** [callback_id] is [size_t]; the build scripts select the 64-bit
    toolchain. *)
Definition callback_id := N.
Definition SIZE_MAX : N := 18446744073709551615.
Definition size_t_wrap (n : N) : N := (n mod (SIZE_MAX + 1))%N.

(** What a [throw] carries: an object derived from [std::exception]
    (with its [what()]) or anything else.

    [undefined_behaviour] is not a C++ exception.  It marks a run that
    has left the behaviour the language defines: here, the construction
    of a [std::string] from a null pointer.  The language says nothing
    about what the program does from there (a library that checks the
    pointer throws a [std::logic_error]; one that does not reads through
    the pointer and the process is terminated, handlers or not).  The
    model keeps its functions total by passing the mark on like a thrown
    object; what a run shows after the mark is no statement about the
    program. *)
Inductive exn :=
| std_exception (what : string)
| other_exception
| undefined_behaviour.

(** [int] is 32 bits wide on the targets of the build scripts. *)
Definition INT_MAX : Z := 2147483647.

(** The value an [int] holds after an arithmetic result [z].  Inside
    the range it is [z].  Outside, the language leaves signed overflow
    undefined; the model takes the two's-complement wrap-around of the
    target machines. *)
Definition int_wrap (z : Z) : Z :=
  ((z + (INT_MAX + 1)) mod (2 * (INT_MAX + 1)) - (INT_MAX + 1))%Z.

(** Lines written to [std::cout] and [std::cerr]. *)
Inductive log_line :=
| SubscribeEvent (eventName : string) (id : callback_id) (signature : list ptype)
| WarningNoCallbacks (eventName : string)
| PublishEvent (eventName : string) (nargs : nat) (types : list vtype)
| TypeMismatch (id : callback_id) (expected : list ptype) (actual : list vtype)
| CallbackException (id : callback_id) (what : string)
| SuccessfullyCalled (successful_calls : Z).

(** [std::any] as [publish] fills it: empty, or a [std::tuple] of
    decayed values. *)
Definition any := option (list value).

(** The type [std::tuple<Ts...>] held by a bundle of values. *)
Definition tuple_type (vs : list value) : list ptype :=
  ByValue ∘ type_of <$> vs.

(** [std::any_cast<std::tuple<Ts...>>(&a)]: the stored tuple when the
    stored type is exactly the requested one, a null pointer otherwise
    (also for the empty [any]). *)
Definition any_cast (Ts : list ptype) (a : any) : option (list value) :=
  match a with
  | Some vs => if decide (tuple_type vs = Ts) then Some vs else None
  | None => None
  end.

(** The report of a callback exception, on [std::cerr]. *)
Definition is_callback_exception (l : log_line) : Prop :=
  match l with
  | CallbackException _ _ => True
  | _ => False
  end.

(** Number of arguments a bundle carries. *)
Definition any_count (a : any) : nat :=
  match a with
  | Some vs => length vs
  | None => 0
  end.

Section EventBus.

(** Everything a callback body can read and write (captured variables,
    globals).  A callback that re-enters [subscribe], [unsubscribe],
    [unsubscribe_all] or [clear] of the bus that is dispatching to it
    blocks on the writer lock and never returns, so callbacks act on
    [W] only. *)
Context {W : Type}.

(** A [std::function<void(Args...)>]: applied to the argument values
    it changes the world and returns, or throws. *)
Definition callback := list value → W → W * option exn.

Record CallbackWrapper := {
  id_ : callback_id;
  Args : list ptype;
  callback_ : callback
}.

Record EventBus := {
  next_id_ : callback_id;
  callbacks_map_ : gmap string (list CallbackWrapper);
  verbose_logging_ : bool
}.

(** The machine state: the bus object, the world of the callbacks, the
    text written so far, and a record of every callback invocation (the
    id of the wrapper and the arguments passed), kept to state which
    callbacks ran. *)
Record Sys := {
  bus : EventBus;
  world : W;
  calls : list (callback_id * list value);
  out : list log_line
}.

Inductive outcome (A : Type) :=
| Returns (a : A) (σ : Sys)
| Throws (e : exn) (σ : Sys).
Global Arguments Returns {A} a σ.
Global Arguments Throws {A} e σ.

Definition final {A} (o : outcome A) : Sys :=
  match o with
  | Returns _ σ | Throws _ σ => σ
  end.

Definition M (A : Type) : Type := Sys → outcome A.

Global Instance M_ret : MRet M := λ A a σ, Returns a σ.
Global Instance M_bind : MBind M := λ A B f m σ,
  match m σ with
  | Returns a σ' => f a σ'
  | Throws e σ' => Throws e σ'
  end.

(** [try { body } catch (...) { handler }] *)
Definition catch_all {A} (body handler : M A) : M A := λ σ,
  match body σ with
  | Returns a σ' => Returns a σ'
  | Throws _ σ' => handler σ'
  end.

(** [try { body } catch (const std::exception& e) { handler e.what() }] *)
Definition catch_std {A} (body : M A) (handler : string → M A) : M A := λ σ,
  match body σ with
  | Returns a σ' => Returns a σ'
  | Throws (std_exception what) σ' => handler what σ'
  | Throws e σ' => Throws e σ'
  end.

Definition get_bus : M EventBus := λ σ, Returns (bus σ) σ.

Definition set_bus (b : EventBus) : M unit := λ σ,
  Returns () {| bus := b; world := world σ; calls := calls σ; out := out σ |}.

Definition log (l : log_line) : M unit := λ σ,
  Returns () {| bus := bus σ; world := world σ; calls := calls σ;
                out := out σ ++ [l] |}.

Definition when (c : bool) (m : M unit) : M unit :=
  if c then m else mret ().

(** ** CallbackWrapper *)

(** [callback_(args...)]: run the stored function. *)
Definition call (w : CallbackWrapper) (args : list value) : M unit := λ σ,
  let '(world', thrown) := callback_ w args (world σ) in
  let σ' := {| bus := bus σ; world := world';
               calls := calls σ ++ [(id_ w, args)]; out := out σ |} in
  match thrown with
  | None => Returns () σ'
  | Some e => Throws e σ'
  end.

(** [map_to_source_type<TargetType>::type] *)
Definition map_to_source_type (target : ptype) : vtype :=
  match target with
  | ByValue TString => TConstCharPtr
  | ConstRef TString => TConstCharPtr
  | ConstRef t => t
  | LvalRef t => t
  | ByValue t => t
  end.

(** [std::is_convertible_v<SourceType, DecayedTarget>] on the types of
    the model. *)
Definition is_convertible (source target : vtype) : bool :=
  match source, target with
  | TInt, TInt | TBool, TBool | TString, TString
  | TConstCharPtr, TConstCharPtr | TCharPtr, TCharPtr
  | TVectorInt, TVectorInt => true
  | TInt, TBool | TBool, TInt => true
  | TConstCharPtr, TBool | TCharPtr, TBool => true
  | TCharPtr, TConstCharPtr => true
  | TConstCharPtr, TString | TCharPtr, TString => true
  | _, _ => false
  end.

(** [static_cast<DecayedTarget>(source)] for the conversions above that
    [convert_parameter] can reach with it (a [std::string] target with
    a character pointer source is taken by the branch before). *)
Definition static_cast (target : vtype) (source : value) : value :=
  match target, source with
  | TBool, VInt z => VBool (negb (Z.eqb z 0))
  | TInt, VBool b => VInt (if b then 1 else 0)
  | TBool, VConstCharPtr p | TBool, VCharPtr p => VBool (bool_decide (is_Some p))
  | TConstCharPtr, VCharPtr p => VConstCharPtr p
  | _, v => v
  end.

(** [DecayedTarget{}] *)
Definition value_initialized (t : vtype) : value :=
  match t with
  | TInt => VInt 0
  | TBool => VBool false
  | TString => VString ""
  | TConstCharPtr => VConstCharPtr None
  | TCharPtr => VCharPtr None
  | TVectorInt => VVectorInt []
  end.

Definition throw {A} (e : exn) : M A := λ σ, Throws e σ.

(** A function that returns a value or throws, without other effects. *)
Definition lift {A} (r : exn + A) : M A :=
  match r with
  | inl e => throw e
  | inr a => mret a
  end.

(** [std::string(source)] for a character pointer.  The constructor
    requires a pointer to text, and the source calls it without a check
    of the pointer: for the null pointer the behaviour is undefined.
    The allocation of the string is taken to succeed. *)
Definition std_string_of (p : option string) : exn + value :=
  match p with
  | Some s => inr (VString s)
  | None => inl undefined_behaviour
  end.

(** [convert_parameter<TargetType>(source)], the [if constexpr] chain. *)
Definition convert_parameter (target : ptype) (source : value) : exn + value :=
  let DecayedTarget := decay_t target in
  if decide (DecayedTarget = type_of source) then inr source
  else
    match DecayedTarget, source with
    | TString, VConstCharPtr p | TString, VCharPtr p => std_string_of p
    | _, _ =>
        if is_convertible (type_of source) DecayedTarget
        then inr (static_cast DecayedTarget source)
        else inr (value_initialized DecayedTarget)
    end.

(** The pack expansion
    [convert_parameter<tuple_element_t<Is, tuple<Args...>>>(get<Is>(source_tuple))...] *)
Fixpoint convert_parameters (targets : list ptype) (sources : list value)
    : exn + list value :=
  match targets, sources with
  | target :: targets', source :: sources' =>
      match convert_parameter target source with
      | inl e => inl e
      | inr v =>
          match convert_parameters targets' sources' with
          | inl e => inl e
          | inr vs => inr (v :: vs)
          end
      end
  | _, _ => inr []
  end.

Definition invoke_with_conversion (w : CallbackWrapper)
    (source_tuple : list value) : M unit :=
  converted ← lift (convert_parameters (Args w) source_tuple);
  call w converted.

Definition try_parameter_conversion (w : CallbackWrapper) (args_any : any)
    : M bool :=
  let SourceTypes := ByValue ∘ map_to_source_type <$> Args w in
  match any_cast SourceTypes args_any with
  | Some source_tuple =>
      catch_all (invoke_with_conversion w source_tuple;; mret true)
                (mret false)
  | None => mret false
  end.

Definition try_universal_conversion (w : CallbackWrapper) (args_any : any)
    : M bool :=
  try_parameter_conversion w args_any.

Definition try_invoke (w : CallbackWrapper) (args_any : any) : M bool :=
  catch_all
    (match Args w with
     | [] => call w [];; mret true
     | _ :: _ =>
         (* 1. exact match *)
         match any_cast (Args w) args_any with
         | Some args_tuple => call w args_tuple;; mret true
         | None =>
             (* 2. loose match *)
             let DecayedArgs := ByValue ∘ decay_t <$> Args w in
             match any_cast DecayedArgs args_any with
             | Some args_tuple => call w args_tuple;; mret true
             | None =>
                 (* 3. conversion *)
                 try_universal_conversion w args_any
             end
         end
     end)
    (mret false).

Definition get_args_type (w : CallbackWrapper) : list ptype := Args w.
Definition get_id (w : CallbackWrapper) : callback_id := id_ w.

(** ** EventBus *)

(** [EventBus bus(verbose_logging)] *)
Definition EventBus_new (verbose_logging : bool) : EventBus :=
  {| next_id_ := 0%N; callbacks_map_ := ∅; verbose_logging_ := verbose_logging |}.

Definition setVerboseLogging (verbose : bool) : M unit :=
  b ← get_bus;
  set_bus {| next_id_ := next_id_ b; callbacks_map_ := callbacks_map_ b;
             verbose_logging_ := verbose |}.

Definition create_wrapper_from_function (id : callback_id)
    (signature : list ptype) (func : callback) : CallbackWrapper :=
  {| id_ := id; Args := signature; callback_ := func |}.

(** [subscribe(eventName, callback)]; [signature] is the parameter list
    that [function_traits] reads off the callback's type. *)
Definition subscribe (eventName : string) (signature : list ptype)
    (callback : callback) : M callback_id :=
  b ← get_bus;
  let id := size_t_wrap (next_id_ b + 1) in
  set_bus {| next_id_ := id; callbacks_map_ := callbacks_map_ b;
             verbose_logging_ := verbose_logging_ b |};;
  when (verbose_logging_ b) (log (SubscribeEvent eventName id signature));;
  let wrapper := create_wrapper_from_function id signature callback in
  b ← get_bus;
  set_bus {| next_id_ := next_id_ b;
             callbacks_map_ :=
               <[eventName := default [] (callbacks_map_ b !! eventName) ++ [wrapper]]>
                 (callbacks_map_ b);
             verbose_logging_ := verbose_logging_ b |};;
  mret id.

Definition unsubscribe (eventName : string) (id : callback_id) : M bool :=
  b ← get_bus;
  match callbacks_map_ b !! eventName with
  | None => mret false
  | Some callbacks =>
      match list_find (λ wrapper, get_id wrapper = id) callbacks with
      | Some (callback_it, _) =>
          set_bus {| next_id_ := next_id_ b;
                     callbacks_map_ :=
                       <[eventName := delete callback_it callbacks]> (callbacks_map_ b);
                     verbose_logging_ := verbose_logging_ b |};;
          mret true
      | None => mret false
      end
  end.

Definition isEventRegistered (b : EventBus) (eventName : string) : bool :=
  match callbacks_map_ b !! eventName with
  | Some callbacks => negb (bool_decide (callbacks = []))
  | None => false
  end.

(** The [for] loop of [publish] over the subscriptions of the event, in
    vector order; [successful_calls] is the running count, an [int]
    that is only printed. *)
Fixpoint dispatch (wrappers : list CallbackWrapper) (args_any : any)
    (actual : list vtype) (successful_calls : Z) : M Z :=
  match wrappers with
  | [] => mret successful_calls
  | wrapper :: rest =>
      successful_calls ←
        catch_std
          (ok ← try_invoke wrapper args_any;
           if ok : bool then mret (int_wrap (successful_calls + 1))
           else
             b ← get_bus;
             when (verbose_logging_ b)
               (log (TypeMismatch (get_id wrapper) (get_args_type wrapper) actual));;
             mret successful_calls)
          (λ what,
             log (CallbackException (get_id wrapper) what);;
             mret successful_calls);
      dispatch rest args_any actual successful_calls
  end.

(** [std::any args_any] as [publish] builds it. *)
Definition make_args_any (args : list arg) : any :=
  match args with
  | [] => None
  | _ :: _ => Some (decay_arg <$> args)
  end.

Definition publish (eventName : string) (args : list arg) : M unit :=
  b ← get_bus;
  match callbacks_map_ b !! eventName with
  | None | Some [] =>
      when (verbose_logging_ b) (log (WarningNoCallbacks eventName))
  | Some wrappers =>
      let actual := type_of ∘ decay_arg <$> args in
      when (verbose_logging_ b) (log (PublishEvent eventName (length args) actual));;
      let args_any := make_args_any args in
      successful_calls ← dispatch wrappers args_any actual 0;
      b ← get_bus;
      when (verbose_logging_ b) (log (SuccessfullyCalled successful_calls))
  end.

Definition getCallbackCount (b : EventBus) (eventName : string) : nat :=
  match callbacks_map_ b !! eventName with
  | Some callbacks => length callbacks
  | None => 0
  end.

Definition unsubscribe_all (eventName : string) : M nat :=
  b ← get_bus;
  match callbacks_map_ b !! eventName with
  | None => mret 0
  | Some callbacks =>
      let count := length callbacks in
      set_bus {| next_id_ := next_id_ b;
                 callbacks_map_ := delete eventName (callbacks_map_ b);
                 verbose_logging_ := verbose_logging_ b |};;
      mret count
  end.

(** The loop body of [getAllEventNames]. *)
Definition push_name_if_subscribed (event_names : list string)
    (pair : string * list CallbackWrapper) : list string :=
  if bool_decide (pair.2 = []) then event_names else event_names ++ [pair.1].

(** The scan visits the entries of the [unordered_map] in its iteration
    order, which the language leaves unspecified; [map_to_list] is one
    enumeration of the entries, each key once. *)
Definition getAllEventNames (b : EventBus) : list string :=
  foldl push_name_if_subscribed [] (map_to_list (callbacks_map_ b)).

(** The counts are sizes of vectors that are in memory together, so
    their sum stays within [size_t] and [nat] loses nothing. *)
Record EventBusStats := {
  total_events : nat;
  total_callbacks : nat;
  max_callbacks_per_event : nat;
  most_subscribed_event : string
}.

(** The loop body of [getStats]. *)
Definition count_entry (stats : EventBusStats)
    (pair : string * list CallbackWrapper) : EventBusStats :=
  if bool_decide (pair.2 = []) then stats
  else
    let callback_count := length pair.2 in
    let grows := bool_decide (max_callbacks_per_event stats < callback_count) in
    {| total_events := S (total_events stats);
       total_callbacks := total_callbacks stats + callback_count;
       max_callbacks_per_event :=
         if grows then callback_count else max_callbacks_per_event stats;
       most_subscribed_event :=
         if grows then pair.1 else most_subscribed_event stats |}.

Definition getStats (b : EventBus) : EventBusStats :=
  foldl count_entry
    {| total_events := 0; total_callbacks := 0; max_callbacks_per_event := 0;
       most_subscribed_event := "" |}
    (map_to_list (callbacks_map_ b)).

Definition publish_if_min_subscribers (eventName : string)
    (min_subscribers : nat) (args : list arg) : M bool :=
  b ← get_bus;
  match callbacks_map_ b !! eventName with
  | None => mret false
  | Some callbacks =>
      if bool_decide (length callbacks < min_subscribers) then mret false
      else publish eventName args;; mret true
  end.

Definition clear : M unit :=
  b ← get_bus;
  set_bus {| next_id_ := next_id_ b; callbacks_map_ := ∅;
             verbose_logging_ := verbose_logging_ b |}.

End EventBus.

Global Arguments callback : clear implicits.
Global Arguments CallbackWrapper : clear implicits.
Global Arguments EventBus : clear implicits.
Global Arguments Sys : clear implicits.
Global Arguments outcome : clear implicits.
Global Arguments M : clear implicits.

(** ** Specification-level definitions *)

Section Specification.
Context {W : Type}.
Implicit Types (σ : Sys W) (w : CallbackWrapper W) (a : any).

(** The state once the callback of [w] has run on [args]. *)
Definition after_call w (args : list value) σ : Sys W :=
  {| bus := bus σ; world := (callback_ w args (world σ)).1;
     calls := calls σ ++ [(id_ w, args)]; out := out σ |}.

(** Whether that run returns (rather than throws). *)
Definition completes w (args : list value) σ : bool :=
  bool_decide ((callback_ w args (world σ)).2 = None).

(** The arguments [try_invoke] passes to the callback for a bundle, if
    it reaches the callback at all. *)
Definition selected_arguments w a : option (list value) :=
  match Args w with
  | [] => Some []
  | _ :: _ =>
      match any_cast (Args w) a with
      | Some vs => Some vs
      | None =>
          match any_cast (ByValue ∘ decay_t <$> Args w) a with
          | Some vs => Some vs
          | None =>
              match any_cast (ByValue ∘ map_to_source_type <$> Args w) a with
              | Some vs =>
                  match convert_parameters (Args w) vs with
                  | inr converted => Some converted
                  | inl _ => None
                  end
              | None => None
              end
          end
      end
  end.

(** The part of the state that callbacks act on. *)
Definition effects σ : W * list (callback_id * list value) :=
  (world σ, calls σ).

(** The invocation that [try_invoke] makes for a bundle, if any. *)
Definition invocation w a : option (callback_id * list value) :=
  (λ args, (id_ w, args)) <$> selected_arguments w a.

(** The state once a line has been written under [verbose_logging_]. *)
Definition logged (l : log_line) σ : Sys W :=
  if verbose_logging_ (bus σ)
  then {| bus := bus σ; world := world σ; calls := calls σ;
          out := out σ ++ [l] |}
  else σ.

(** The state once [publish] has reported a wrapper that returned
    [false]. *)
Definition mismatch_logged w (actual : list vtype) σ : Sys W :=
  logged (TypeMismatch (id_ w) (Args w) actual) σ.

(** A client of the bus: a sequence of calls to its member functions
    that are not [const]. *)
Inductive operation :=
| Subscribe (eventName : string) (signature : list ptype) (f : callback W)
| Unsubscribe (eventName : string) (id : callback_id)
| UnsubscribeAll (eventName : string)
| Clear
| Publish (eventName : string) (args : list arg)
| PublishIfMinSubscribers (eventName : string) (min_subscribers : nat)
    (args : list arg)
| SetVerboseLogging (verbose : bool).

(** Run the calls in order; the result lists the ids that the
    [subscribe] calls returned, in the order of the calls. *)
Fixpoint run (ops : list operation) : M W (list callback_id) :=
  match ops with
  | [] => mret []
  | Subscribe eventName signature f :: ops' =>
      id ← subscribe eventName signature f;
      ids ← run ops';
      mret (id :: ids)
  | Unsubscribe eventName id :: ops' => unsubscribe eventName id;; run ops'
  | UnsubscribeAll eventName :: ops' => unsubscribe_all eventName;; run ops'
  | Clear :: ops' => clear;; run ops'
  | Publish eventName args :: ops' => publish eventName args;; run ops'
  | PublishIfMinSubscribers eventName min_subscribers args :: ops' =>
      publish_if_min_subscribers eventName min_subscribers args;; run ops'
  | SetVerboseLogging verbose :: ops' => setVerboseLogging verbose;; run ops'
  end.

Definition is_subscribe (op : operation) : bool :=
  match op with
  | Subscribe _ _ _ => true
  | _ => false
  end.

(** Number of [subscribe] calls in a sequence. *)
Definition count_subscribes (ops : list operation) : nat :=
  length (filter (λ op, is_subscribe op = true) ops).

(** A freshly constructed bus in a given world. *)
Definition fresh (verbose_logging : bool) (world0 : W) : Sys W :=
  {| bus := EventBus_new verbose_logging; world := world0;
     calls := []; out := [] |}.

(** An entry of the registry with at least one subscription. *)
Definition subscribed (pair : string * list (CallbackWrapper W)) : Prop :=
  pair.2 ≠ [].

Global Instance subscribed_dec pair : Decision (subscribed pair).
Proof. unfold subscribed. apply _. Defined.

(** The bus without the entry of an event. *)
Definition without_entry (b : EventBus W) (eventName : string) : EventBus W :=
  {| next_id_ := next_id_ b;
     callbacks_map_ := delete eventName (callbacks_map_ b);
     verbose_logging_ := verbose_logging_ b |}.

(** The state once the entry of an event holds [callbacks]. *)
Definition with_callbacks (eventName : string)
    (callbacks : list (CallbackWrapper W)) σ : Sys W :=
  {| bus := {| next_id_ := next_id_ (bus σ);
               callbacks_map_ :=
                 <[eventName := callbacks]> (callbacks_map_ (bus σ));
               verbose_logging_ := verbose_logging_ (bus σ) |};
     world := world σ; calls := calls σ; out := out σ |}.

(** One [subscribe] call per name, with the signatures and callbacks
    taken in order. *)
Definition subscribe_in_order (names : list string)
    (subscribers : list (list ptype * callback W)) : list operation :=
  zip_with (λ name subscriber, Subscribe name subscriber.1 subscriber.2)
    names subscribers.

(** The ids stored under an event, in vector order. *)
Definition ids_of (b : EventBus W) (eventName : string) : list callback_id :=
  id_ <$> default [] (callbacks_map_ b !! eventName).

(** The subscriptions stored under an event, in vector order; none for
    an event without an entry. *)
Definition callbacks_of (b : EventBus W) (eventName : string)
    : list (CallbackWrapper W) :=
  default [] (callbacks_map_ b !! eventName).

(** Every stored id was issued: it lies between 1 and the counter. *)
Definition ids_issued (b : EventBus W) : Prop :=
  ∀ eventName w,
    w ∈ callbacks_of b eventName → (0 < id_ w ≤ next_id_ b)%N.

(** No id is stored twice, neither under one event nor under two. *)
Definition ids_unique (b : EventBus W) : Prop :=
  ∀ eventName1 eventName2 i1 i2 w1 w2,
    callbacks_of b eventName1 !! i1 = Some w1 →
    callbacks_of b eventName2 !! i2 = Some w2 →
    id_ w1 = id_ w2 →
    eventName1 = eventName2 ∧ i1 = i2.

Definition registry_ok (b : EventBus W) : Prop :=
  ids_issued b ∧ ids_unique b.

(** Whether a call is a [subscribe] to the given event. *)
Definition subscribes_to (eventName : string) (op : operation) : bool :=
  match op with
  | Subscribe eventName' _ _ => bool_decide (eventName' = eventName)
  | _ => false
  end.

(** Whether a call turns verbose logging on. *)
Definition turns_verbose_on (op : operation) : bool :=
  match op with
  | SetVerboseLogging true => true
  | _ => false
  end.

(** What a published value may become on its way to a callback: itself,
    or the [std::string] of the text a [const char*] points to. *)
Definition delivered_as (published delivered : value) : Prop :=
  delivered = published ∨
  ∃ s, published = VConstCharPtr (Some s) ∧ delivered = VString s.





End Specification.

Global Arguments operation : clear implicits.

(** ** Callbacks and wrappers of the examples

    The world of the examples is a counter. *)

(** A callback that counts its invocations. *)
Definition counting : callback nat := λ _ n, (S n, None).

(** A callback that throws a [std::runtime_error]. *)
Definition throwing : callback nat :=
  λ _ n, (n, Some (std_exception "boom")).

(** [void()] wrappers around them, and one declared [void(int, int)]
    and one declared [void(const std::string&)]. *)
Definition nullary_counting : CallbackWrapper nat :=
  create_wrapper_from_function 1%N [] counting.
Definition nullary_throwing : CallbackWrapper nat :=
  create_wrapper_from_function 1%N [] throwing.
Definition binary_counting : CallbackWrapper nat :=
  create_wrapper_from_function 1%N [ByValue TInt; ByValue TInt] counting.
Definition text_counting : CallbackWrapper nat :=
  create_wrapper_from_function 1%N [ConstRef TString] counting.

(** A bus whose entry for ["e"] was emptied by [unsubscribe]. *)
Definition emptied : EventBus nat :=
  bus (final (run [Subscribe "e" [] counting; Unsubscribe "e" 1%N]
                (fresh false 0))).

(** One [subscribe] on the event ["t"] followed by the removal of the
    event: the registry is as before, one id has been used. *)
Definition churn : list (operation nat) :=
  [Subscribe "t" [] counting; UnsubscribeAll "t"].

(** The ids that [n] rounds of [churn] return when the counter starts
    at [next]. *)
Definition churn_ids (next : callback_id) (n : nat) : list callback_id :=
  (λ k, size_t_wrap (next + N.of_nat (S k))) <$> seq 0 n.

(** A state whose bus does not log. *)
Definition quiet (next : callback_id)
    (callbacks_map : gmap string (list (CallbackWrapper nat)))
    (world0 : nat) : Sys nat :=
  {| bus := {| next_id_ := next; callbacks_map_ := callbacks_map;
               verbose_logging_ := false |};
     world := world0; calls := []; out := [] |}.

(** [SIZE_MAX - 1] rounds of [churn], then two more [subscribe] calls. *)
Definition wrap_around : list (operation nat) :=
  mjoin (replicate (N.to_nat (SIZE_MAX - 1)) churn)
    ++ [Subscribe "t" [] counting; Subscribe "t" [] counting].

(** A [subscribe] on ["e"], [SIZE_MAX] rounds of [churn], and a second
    [subscribe] on ["e"]. *)
Definition id_reused : list (operation nat) :=
  Subscribe "e" [] counting
    :: mjoin (replicate (N.to_nat SIZE_MAX) churn)
    ++ [Subscribe "e" [] counting].

(** A bus on which a throwing callback and then a counting callback
    were subscribed to the event ["e"]. *)
Definition two_subscribers (verbose_logging : bool) : Sys nat :=
  final (run [Subscribe "e" [] throwing; Subscribe "e" [] counting]
           (fresh verbose_logging 0)).

(** A bus with one subscription to the event ["e"]. *)
Definition one_subscriber : Sys nat :=
  final (run [Subscribe "e" [] counting] (fresh false 0)).

(** A client that never turns verbose logging on. *)
Definition silent_client : list (operation nat) :=
  [Subscribe "e" [] counting; Publish "e" []; Unsubscribe "e" 1%N;
   SetVerboseLogging false; PublishIfMinSubscribers "e" 0 []; Clear].

(** A client that subscribes to two events and unsubscribes in
    between. *)
Definition busy_client : list (operation nat) :=
  [Subscribe "e" [] counting; Subscribe "e" [] counting;
   Unsubscribe "e" 1%N; Subscribe "f" [] counting].

(** Three [subscribe] calls, two of them to the event ["e"]. *)
Definition three_subscribes : list (operation nat) :=
  [Subscribe "e" [] counting; Subscribe "f" [] counting;
   Subscribe "e" [ByValue TInt] counting].

(** Unfold the primitive computations of the monad and evaluate. *)
Ltac run_monad :=
  unfold mbind, M_bind, mret, M_ret, get_bus, set_bus, log, when, throw, lift;
  cbn -[dispatch].

(** ** The callback wrapper *)

Section WrapperProofs.
Context {W : Type}.
Implicit Types (σ : Sys W) (w : CallbackWrapper W) (a : any).

Lemma call_unfold w args σ :
  call w args σ =
    match (callback_ w args (world σ)).2 with
    | None => Returns () (after_call w args σ)
    | Some e => Throws e (after_call w args σ)
    end.
Proof.
  unfold call, after_call. destruct (callback_ w args (world σ)) as [wd [e|]]; done.
Qed.

Lemma call_then_true w args σ :
  catch_all (call w args;; mret true) (mret false) σ =
    Returns (completes w args σ) (after_call w args σ).
Proof.
  unfold catch_all, mbind, M_bind, completes. rewrite call_unfold.
  destruct (callback_ w args (world σ)).2; done.
Qed.

(** [try_invoke] always returns: [false] with the state untouched when
    no callback is reached, and otherwise whether the callback
    completed, with the state the callback left. *)
Lemma try_invoke_unfold w a σ :
  try_invoke w a σ =
    match selected_arguments w a with
    | Some args => Returns (completes w args σ) (after_call w args σ)
    | None => Returns false σ
    end.
Proof.
  unfold try_invoke, selected_arguments.
  destruct (Args w) as [|p ps] eqn:HArgs; [apply call_then_true|].
  destruct (any_cast (p :: ps) a) as [vs|]; [apply call_then_true|].
  destruct (any_cast (ByValue ∘ decay_t <$> p :: ps) a) as [vs|];
    [apply call_then_true|].
  unfold try_universal_conversion, try_parameter_conversion. rewrite HArgs.
  destruct (any_cast (ByValue ∘ map_to_source_type <$> p :: ps) a) as [vs|];
    [|done].
  unfold invoke_with_conversion. rewrite HArgs.
  destruct (convert_parameters (p :: ps) vs) as [e|converted]; [done|].
  pose proof (call_then_true w converted σ) as H.
  unfold catch_all at 1.
  change (catch_all _ _ σ) with (catch_all (call w converted;; mret true) (mret false) σ).
  by rewrite H.
Qed.

(** On a source of the type that [map_to_source_type] names, the chain
    of [convert_parameter] ends in its first or its second branch: the
    value is passed on as it is, or a [std::string] is made from a
    character pointer.  The [static_cast] and the value-initialisation
    are not reached from [try_parameter_conversion]. *)
Lemma convert_parameter_of_source_type target source :
  type_of source = map_to_source_type target →
  convert_parameter target source =
    match source with
    | VConstCharPtr p =>
        if decide (decay_t target = TString) then std_string_of p
        else inr source
    | _ => inr source
    end.
Proof.
  destruct target as [[]|[]|[]], source; cbn; intros [=]; reflexivity.
Qed.

Lemma any_cast_length Ts a vs : any_cast Ts a = Some vs → length vs = length Ts.
Proof.
  destruct a as [vs'|]; simpl; [|done]. case_decide as H; [|done].
  intros [= <-]. rewrite <- H. unfold tuple_type. by rewrite length_fmap.
Qed.

Lemma any_cast_count Ts a : any_count a ≠ length Ts → any_cast Ts a = None.
Proof.
  intros Hne. destruct (any_cast Ts a) as [vs|] eqn:H; [|done].
  apply any_cast_length in H as Hlen. destruct a as [vs'|]; [|done].
  simpl in *. case_decide; simplify_eq.
Qed.

End WrapperProofs.

(** ** Dispatch *)

Section DispatchProofs.
Context {W : Type}.
Implicit Types (σ : Sys W) (w : CallbackWrapper W) (a : any).

Lemma dispatch_cons w rest a actual n σ :
  dispatch (w :: rest) a actual n σ =
    match selected_arguments w a with
    | Some args =>
        if completes w args σ
        then dispatch rest a actual (int_wrap (n + 1)) (after_call w args σ)
        else dispatch rest a actual n (mismatch_logged w actual (after_call w args σ))
    | None => dispatch rest a actual n (mismatch_logged w actual σ)
    end.
Proof.
  cbn [dispatch]. unfold mbind at 1, M_bind at 1, catch_std.
  unfold mbind at 1, M_bind at 1. rewrite try_invoke_unfold.
  unfold mismatch_logged, logged, get_id, get_args_type.
  destruct (selected_arguments w a) as [args|].
  - destruct (completes w args σ); [done|]. run_monad.
    by destruct (verbose_logging_ (bus σ)).
  - run_monad. by destruct (verbose_logging_ (bus σ)).
Qed.

Lemma bus_after_call w args σ : bus (after_call w args σ) = bus σ.
Proof. done. Qed.

Lemma bus_logged l σ : bus (logged l σ) = bus σ.
Proof. unfold logged. by destruct (verbose_logging_ (bus σ)). Qed.

Lemma bus_mismatch_logged w actual σ : bus (mismatch_logged w actual σ) = bus σ.
Proof. apply bus_logged. Qed.

Lemma effects_logged l σ : effects (logged l σ) = effects σ.
Proof. unfold logged. by destruct (verbose_logging_ (bus σ)). Qed.

(** The loop runs to its end whatever the callbacks do, and leaves the
    bus as it was. *)
Lemma dispatch_returns wrappers a actual n σ :
  ∃ n' σ', dispatch wrappers a actual n σ = Returns n' σ' ∧ bus σ' = bus σ.
Proof.
  revert n σ. induction wrappers as [|w rest IH]; intros n σ.
  - by exists n, σ.
  - rewrite dispatch_cons.
    destruct (selected_arguments w a) as [args|];
      [destruct (completes w args σ)|].
    + destruct (IH (int_wrap (n + 1)) (after_call w args σ))
        as (n' & σ' & -> & Hb). eauto.
    + destruct (IH n (mismatch_logged w actual (after_call w args σ)))
        as (n' & σ' & -> & Hb).
      exists n', σ'. split; [done|]. by rewrite Hb, bus_mismatch_logged.
    + destruct (IH n (mismatch_logged w actual σ)) as (n' & σ' & -> & Hb).
      exists n', σ'. split; [done|]. by rewrite Hb, bus_mismatch_logged.
Qed.

Lemma dispatch_app l1 l2 a actual n σ :
  dispatch (l1 ++ l2) a actual n σ =
    (n1 ← dispatch l1 a actual n; dispatch l2 a actual n1) σ.
Proof.
  revert n σ. induction l1 as [|w rest IH]; intros n σ; [done|].
  rewrite <- app_comm_cons, dispatch_cons.
  unfold mbind, M_bind. rewrite dispatch_cons.
  destruct (selected_arguments w a) as [args|];
    [destruct (completes w args σ)|]; apply IH.
Qed.

End DispatchProofs.

Section PublishProofs.
Context {W : Type}.
Implicit Types (σ : Sys W) (w : CallbackWrapper W) (a : any).

Lemma completes_effects w args σ1 σ2 :
  effects σ1 = effects σ2 → completes w args σ1 = completes w args σ2.
Proof. unfold effects, completes. by intros [= -> _]. Qed.

Lemma effects_after_call w args σ1 σ2 :
  effects σ1 = effects σ2 →
  effects (after_call w args σ1) = effects (after_call w args σ2).
Proof. unfold effects, after_call. cbn. by intros [= -> ->]. Qed.

Lemma effects_mismatch_logged w actual σ :
  effects (mismatch_logged w actual σ) = effects σ.
Proof. apply effects_logged. Qed.

(** What the loop does to the world, and which callbacks it runs, does
    not depend on the bus, the text written or the running count. *)
Lemma dispatch_effects wrappers a actual1 actual2 n1 n2 σ1 σ2 :
  effects σ1 = effects σ2 →
  effects (final (dispatch wrappers a actual1 n1 σ1)) =
  effects (final (dispatch wrappers a actual2 n2 σ2)).
Proof.
  revert n1 n2 σ1 σ2.
  induction wrappers as [|w rest IH]; intros n1 n2 σ1 σ2 Heq; [done|].
  rewrite !dispatch_cons.
  destruct (selected_arguments w a) as [args|].
  - rewrite (completes_effects w args σ1 σ2 Heq).
    destruct (completes w args σ2); apply IH;
      rewrite ?effects_mismatch_logged; by apply effects_after_call.
  - apply IH. by rewrite !effects_mismatch_logged.
Qed.

Lemma calls_logged l σ : calls (logged l σ) = calls σ.
Proof. unfold logged. by destruct (verbose_logging_ (bus σ)). Qed.

(** The loop reaches every subscription, in vector order: the callbacks
    invoked are those of all the wrappers that accept the bundle,
    whether or not an earlier callback threw. *)
Lemma dispatch_calls wrappers a actual n σ :
  calls (final (dispatch wrappers a actual n σ)) =
    calls σ ++ omap (λ w, invocation w a) wrappers.
Proof.
  unfold invocation. revert n σ.
  induction wrappers as [|w rest IH]; intros n σ.
  - cbn. by rewrite app_nil_r.
  - rewrite dispatch_cons. cbn [omap list_omap].
    destruct (selected_arguments w a) as [args|]; cbn [fmap option_fmap option_map];
      [destruct (completes w args σ)|]; rewrite IH.
    + cbn. by rewrite <- app_assoc.
    + unfold mismatch_logged. rewrite calls_logged. cbn.
      by rewrite <- app_assoc.
    + unfold mismatch_logged. by rewrite calls_logged.
Qed.

(** [publish] as a function of the state: the early return, or the
    loop between the two lines of the verbose report. *)
Lemma publish_unfold eventName args σ :
  publish eventName args σ =
    match callbacks_map_ (bus σ) !! eventName with
    | None | Some [] => Returns () (logged (WarningNoCallbacks eventName) σ)
    | Some wrappers =>
        let actual := type_of ∘ decay_arg <$> args in
        match dispatch wrappers (make_args_any args) actual 0
                (logged (PublishEvent eventName (length args) actual) σ) with
        | Returns n σ' => Returns () (logged (SuccessfullyCalled n) σ')
        | Throws e σ' => Throws e σ'
        end
    end.
Proof.
  unfold publish, logged. run_monad.
  destruct (callbacks_map_ (bus σ) !! eventName) as [[|w rest]|].
  1, 3: by destruct (verbose_logging_ (bus σ)).
  destruct (verbose_logging_ (bus σ)); cbn -[dispatch].
  all: match goal with |- context [dispatch ?l ?a ?t ?n ?s] =>
         destruct (dispatch l a t n s) as [n' σ'|e σ'] end; [|done].
  all: by destruct (verbose_logging_ (bus σ')).
Qed.

Lemma publish_returns eventName args σ :
  ∃ σ', publish eventName args σ = Returns () σ' ∧ bus σ' = bus σ.
Proof.
  rewrite publish_unfold.
  destruct (callbacks_map_ (bus σ) !! eventName) as [[|w rest]|].
  1, 3: eexists; split; [done|apply bus_logged].
  cbv zeta.
  match goal with |- context [dispatch ?l ?a ?t ?n ?s] =>
    destruct (dispatch_returns l a t n s) as (n' & σ' & -> & Hb) end.
  eexists; split; [done|]. by rewrite bus_logged, Hb, bus_logged.
Qed.

(** The effects of [publish] are those of the loop over the event's
    subscriptions. *)
Lemma publish_effects eventName args σ :
  effects (final (publish eventName args σ)) =
  effects (final (dispatch (default [] (callbacks_map_ (bus σ) !! eventName))
                    (make_args_any args) [] 0 σ)).
Proof.
  rewrite publish_unfold.
  destruct (callbacks_map_ (bus σ) !! eventName) as [[|w rest]|]; cbn -[dispatch].
  1, 3: apply effects_logged.
  set (actual := type_of ∘ decay_arg <$> args).
  rewrite <- (dispatch_effects (w :: rest) (make_args_any args) actual [] 0 0
               (logged (PublishEvent eventName (length args) actual) σ) σ)
    by apply effects_logged.
  match goal with |- context [dispatch ?l ?a ?t ?n ?s] =>
    destruct (dispatch_returns l a t n s) as (n' & σ' & -> & Hb) end.
  apply effects_logged.
Qed.

End PublishProofs.

(** ** Properties of [try_invoke] *)

Section WrapperClaims.
Context {W : Type}.
Implicit Types (σ : Sys W) (w : CallbackWrapper W) (a : any).

Lemma selected_arguments_arity w a :
  Args w ≠ [] → any_count a ≠ length (Args w) → selected_arguments w a = None.
Proof.
  intros Hne Hcount. unfold selected_arguments.
  destruct (Args w) as [|p ps] eqn:HArgs; [done|].
  rewrite !any_cast_count; [done|by rewrite length_fmap..|done].
Qed.

(** C1, as amended: a wrapper that declares at least one parameter
    returns false, without invoking its callback and without any other
    effect, whenever the number of arguments in the bundle differs from
    the number of declared parameters; a wrapper that declares no
    parameter invokes its callback with no arguments for every bundle,
    whatever the number of arguments the bundle carries. *)
Theorem try_invoke_arity w a σ :
  (Args w ≠ [] → any_count a ≠ length (Args w) →
     try_invoke w a σ = Returns false σ) ∧
  (Args w = [] →
     try_invoke w a σ = Returns (completes w [] σ) (after_call w [] σ)).
Proof.
  split.
  - intros Hne Hcount.
    by rewrite try_invoke_unfold, selected_arguments_arity.
  - intros HArgs. rewrite try_invoke_unfold.
    unfold selected_arguments. by rewrite HArgs.
Qed.

(** The only conversion that does not return is the construction of a
    [std::string] from a null pointer. *)
Lemma convert_parameter_inl target source e :
  convert_parameter target source = inl e →
  e = undefined_behaviour ∧ decay_t target = TString ∧
  (source = VConstCharPtr None ∨ source = VCharPtr None).
Proof.
  destruct target as [[]|[]|[]], source as [| | |[]|[]|]; cbn; try done;
    intros [= <-]; auto.
Qed.

Lemma convert_parameters_inl (Ts : list ptype) (vs : list value) e :
  convert_parameters Ts vs = inl e → e = undefined_behaviour.
Proof.
  revert vs. induction Ts as [|target Ts IH]; intros [|v vs]; cbn; try done.
  destruct (convert_parameter target v) as [e'|v'] eqn:Hv.
  - intros [= <-]. by apply convert_parameter_inl in Hv as [-> _].
  - destruct (convert_parameters Ts vs) as [e'|vs'] eqn:Hvs; [|done].
    intros [= <-]. by eapply IH.
Qed.

(** On every bundle on which the behaviour is defined, [try_invoke]
    returns a boolean and lets no exception out.  It returns true
    exactly when the callback was reached and completed; when the
    callback throws, the exception is swallowed and the result is
    false; and no parameter conversion fails, so that a bundle of the
    source types always reaches the callback. *)
Lemma try_invoke_returns_when_defined w a σ :
  (∀ vs, any_cast (ByValue ∘ map_to_source_type <$> Args w) a = Some vs →
         convert_parameters (Args w) vs ≠ inl undefined_behaviour) →
  ∃ (r : bool) σ',
    try_invoke w a σ = Returns r σ' ∧
    (r = true ↔
       ∃ args, selected_arguments w a = Some args ∧
               (callback_ w args (world σ)).2 = None) ∧
    (∀ args e,
       selected_arguments w a = Some args →
       (callback_ w args (world σ)).2 = Some e →
       r = false ∧ σ' = after_call w args σ) ∧
    (∀ vs,
       Args w ≠ [] →
       any_cast (Args w) a = None →
       any_cast (ByValue ∘ decay_t <$> Args w) a = None →
       any_cast (ByValue ∘ map_to_source_type <$> Args w) a = Some vs →
       ∃ converted,
         convert_parameters (Args w) vs = inr converted ∧
         selected_arguments w a = Some converted).
Proof.
  intros Hdefined.
  assert (∀ vs,
    Args w ≠ [] →
    any_cast (Args w) a = None →
    any_cast (ByValue ∘ decay_t <$> Args w) a = None →
    any_cast (ByValue ∘ map_to_source_type <$> Args w) a = Some vs →
    ∃ converted,
      convert_parameters (Args w) vs = inr converted ∧
      selected_arguments w a = Some converted) as Hconverted.
  { intros vs Hne H1 H2 H3. specialize (Hdefined vs H3).
    destruct (convert_parameters (Args w) vs) as [e|converted] eqn:Hconv.
    - apply convert_parameters_inl in Hconv as Hmark. by subst e.
    - exists converted. split; [done|]. unfold selected_arguments.
      destruct (Args w); [done|]. by rewrite H1, H2, H3, Hconv. }
  rewrite try_invoke_unfold.
  destruct (selected_arguments w a) as [args|] eqn:Hsel.
  - exists (completes w args σ), (after_call w args σ).
    split; [done|]. unfold completes. split; [split|split].
    + intros Hr%bool_decide_eq_true. eauto.
    + intros (args' & [= <-] & Hnone). by apply bool_decide_eq_true.
    + intros args' e [= <-] Hthrown. split; [|done].
      apply bool_decide_eq_false. congruence.
    + done.
  - exists false, σ. split; [done|]. split; [split|split]; try done.
    intros (args & ? & _). done.
Qed.

(** C10, at the failing input: a wrapper declared [void(std::string)]
    or [void(const std::string&)] and a bundle that holds a null
    [const char*].  The exact and the decayed match fail, the bundle is
    a tuple of the source types, and the conversion constructs a
    [std::string] from the null pointer: the run leaves defined
    behaviour inside [try_invoke], before the callback is called and
    with nothing that a handler could catch. *)
Theorem try_invoke_string_from_null (by_value : bool) id (h : callback W) σ :
  let w :=
    create_wrapper_from_function id
      [if by_value then ByValue TString else ConstRef TString] h in
  let a := make_args_any [Object (VConstCharPtr None)] in
  any_cast (Args w) a = None ∧
  any_cast (ByValue ∘ decay_t <$> Args w) a = None ∧
  any_cast (ByValue ∘ map_to_source_type <$> Args w) a
    = Some [VConstCharPtr None] ∧
  convert_parameters (Args w) [VConstCharPtr None] = inl undefined_behaviour ∧
  invoke_with_conversion w [VConstCharPtr None] σ
    = Throws undefined_behaviour σ.
Proof. by destruct by_value. Qed.

End WrapperClaims.

(** ** Properties of [publish] *)

Section PublishClaims.
Context {W : Type}.
Implicit Types (σ : Sys W) (w : CallbackWrapper W) (a : any).

Lemma out_logged l σ :
  ¬ is_callback_exception l →
  ∃ lines, out (logged l σ) = out σ ++ lines ∧
           Forall (λ l, ¬ is_callback_exception l) lines.
Proof.
  intros Hl. unfold logged. destruct (verbose_logging_ (bus σ)).
  - exists [l]. by split; [|constructor].
  - exists []. by rewrite app_nil_r.
Qed.

Lemma dispatch_out wrappers a actual n σ :
  ∃ lines, out (final (dispatch wrappers a actual n σ)) = out σ ++ lines ∧
           Forall (λ l, ¬ is_callback_exception l) lines.
Proof.
  revert n σ. induction wrappers as [|w rest IH]; intros n σ.
  - exists []. by rewrite app_nil_r.
  - rewrite dispatch_cons.
    assert (∀ σ0 n0 lines0,
      out σ0 = out σ ++ lines0 →
      Forall (λ l, ¬ is_callback_exception l) lines0 →
      ∃ lines, out (final (dispatch rest a actual n0 σ0)) = out σ ++ lines ∧
               Forall (λ l, ¬ is_callback_exception l) lines) as Hstep.
    { intros σ0 n0 lines0 Hout Hlines0.
      destruct (IH n0 σ0) as (lines & -> & Hlines).
      exists (lines0 ++ lines). rewrite Hout, app_assoc.
      split; [done|]. by apply Forall_app. }
    assert (∀ σ0 lines0,
      out σ0 = out σ ++ lines0 →
      Forall (λ l, ¬ is_callback_exception l) lines0 →
      ∃ lines1, out (mismatch_logged w actual σ0) = out σ ++ lines1 ∧
               Forall (λ l, ¬ is_callback_exception l) lines1) as Hlog.
    { intros σ0 lines0 Hout Hlines0. unfold mismatch_logged.
      destruct (out_logged (TypeMismatch (id_ w) (Args w) actual) σ0)
        as (lines & -> & Hlines); [by intros []|].
      exists (lines0 ++ lines). rewrite Hout, app_assoc.
      split; [done|]. by apply Forall_app. }
    destruct (selected_arguments w a) as [args|];
      [destruct (completes w args σ)|].
    + apply (Hstep _ _ []); [by rewrite app_nil_r|constructor].
    + destruct (Hlog (after_call w args σ) []) as (lines1 & ? & ?);
        [by rewrite app_nil_r|constructor|]. by eapply Hstep.
    + destruct (Hlog σ []) as (lines1 & ? & ?);
        [by rewrite app_nil_r|constructor|]. by eapply Hstep.
Qed.

(** The handler of [publish] that reports a callback exception with the
    id of the subscriber is never entered: whatever the subscribers do,
    no such line is added to the output. *)
Lemma publish_never_reports_exception eventName args σ :
  ∃ lines, out (final (publish eventName args σ)) = out σ ++ lines ∧
           Forall (λ l, ¬ is_callback_exception l) lines.
Proof.
  rewrite publish_unfold.
  destruct (callbacks_map_ (bus σ) !! eventName) as [[|w rest]|].
  1, 3: apply out_logged; by intros [].
  cbv zeta. set (actual := type_of ∘ decay_arg <$> args).
  set (σ1 := logged _ σ).
  destruct (out_logged (PublishEvent eventName (length args) actual) σ)
    as (lines1 & Hout1 & Hlines1); [by intros []|]. fold σ1 in Hout1.
  destruct (dispatch_out (w :: rest) (make_args_any args) actual 0 σ1)
    as (lines2 & Hout2 & Hlines2).
  destruct (dispatch_returns (w :: rest) (make_args_any args) actual 0 σ1)
    as (n' & σ' & Hd & _).
  rewrite Hd in Hout2 |- *. cbn in Hout2 |- *.
  destruct (out_logged (SuccessfullyCalled n') σ')
    as (lines3 & -> & Hlines3); [by intros []|].
  exists (lines1 ++ lines2 ++ lines3).
  rewrite Hout2, Hout1, <- !app_assoc. split; [done|].
  by repeat apply Forall_app_2.
Qed.

(** C9: [publish] leaves the whole bus object as it found it, and with
    it the events and the subscriptions of the registry in their order;
    so does [publish_if_min_subscribers], and [setVerboseLogging]
    changes only the logging flag.  Of the member functions that are
    not [const], this leaves [subscribe], [unsubscribe],
    [unsubscribe_all] and [clear] as the ones that change the
    registry. *)
Theorem publish_preserves_registry eventName args σ :
  bus (final (publish eventName args σ)) = bus σ ∧
  (∀ min_subscribers,
     bus (final (publish_if_min_subscribers eventName min_subscribers args σ))
       = bus σ) ∧
  (∀ verbose,
     callbacks_map_ (bus (final (setVerboseLogging verbose σ)))
       = callbacks_map_ (bus σ)).
Proof.
  destruct (publish_returns eventName args σ) as (σ' & Hp & Hb).
  split; [by rewrite Hp|]. split; [|done].
  intros min_subscribers. unfold publish_if_min_subscribers. run_monad.
  destruct (callbacks_map_ (bus σ) !! eventName) as [callbacks|]; [|done].
  case_bool_decide; [done|]. by rewrite Hp.
Qed.


Lemma subscribe_unfold eventName signature (f : callback W) σ :
  let id := size_t_wrap (next_id_ (bus σ) + 1) in
  subscribe eventName signature f σ =
    Returns id
      {| bus :=
           {| next_id_ := id;
              callbacks_map_ :=
                <[eventName :=
                    default [] (callbacks_map_ (bus σ) !! eventName)
                      ++ [create_wrapper_from_function id signature f]]>
                  (callbacks_map_ (bus σ));
              verbose_logging_ := verbose_logging_ (bus σ) |};
         world := world σ; calls := calls σ;
         out := if verbose_logging_ (bus σ)
                then out σ ++ [SubscribeEvent eventName id signature]
                else out σ |}.
Proof.
  unfold subscribe. run_monad. by destruct (verbose_logging_ (bus σ)).
Qed.

Lemma selected_arguments_text w s :
  Args w = [ByValue TString] ∨ Args w = [ConstRef TString] →
  selected_arguments w (Some [VConstCharPtr (Some s)]) = Some [VString s].
Proof. unfold selected_arguments. by intros [-> | ->]. Qed.

(** C8: subscribe a callback [h] that declares one parameter of type
    [std::string] or [const std::string&] to an event, then publish a
    string literal on that event.  The source type that
    [map_to_source_type] gives for the parameter is [const char*], the
    type the literal decays to, and [convert_parameter] makes the
    [std::string] with the text of the literal from it.  Compared with
    the same [publish] before the subscription, the callbacks run are
    the same, followed by exactly one run of [h], on that
    [std::string]. *)
Theorem publish_literal_to_string_subscriber σ eventName p (h : callback W) s :
  p = ByValue TString ∨ p = ConstRef TString →
  map_to_source_type p = type_of (decay_arg (Literal s)) ∧
  convert_parameter p (decay_arg (Literal s)) = inr (VString s) ∧
  ∃ id σ1 σ_without σ_with,
    subscribe eventName [p] h σ = Returns id σ1 ∧
    publish eventName [Literal s] σ = Returns () σ_without ∧
    publish eventName [Literal s] σ1 = Returns () σ_with ∧
    calls σ_with = calls σ_without ++ [(id, [VString s])] ∧
    world σ_with = (h [VString s] (world σ_without)).1.
Proof.
  intros Hp.
  split; [by destruct Hp as [-> | ->]|].
  split; [by destruct Hp as [-> | ->]|].
  pose proof (subscribe_unfold eventName [p] h σ) as Hsub.
  cbv zeta in Hsub.
  set (id := size_t_wrap (next_id_ (bus σ) + 1)) in *.
  set (w := create_wrapper_from_function id [p] h) in *.
  set (old := default [] (callbacks_map_ (bus σ) !! eventName)) in *.
  match type of Hsub with _ = Returns _ ?s1 => set (σ1 := s1) in * end.
  destruct (publish_returns eventName [Literal s] σ) as (σ_without & Hpub & _).
  destruct (publish_returns eventName [Literal s] σ1) as (σ_with & Hpub1 & _).
  exists id, σ1, σ_without, σ_with. do 3 (split; [done|]).
  pose proof (publish_effects eventName [Literal s] σ) as Heff.
  pose proof (publish_effects eventName [Literal s] σ1) as Heff1.
  rewrite Hpub in Heff. rewrite Hpub1 in Heff1. cbn [final] in Heff, Heff1.
  fold old in Heff.
  replace (default [] (callbacks_map_ (bus σ1) !! eventName))
    with (old ++ [w])
    in Heff1 by (subst σ1; cbn; by rewrite lookup_insert_eq).
  cbn [make_args_any fmap list_fmap decay_arg] in Heff, Heff1.
  rewrite dispatch_app in Heff1. unfold mbind, M_bind in Heff1.
  set (a := Some [VConstCharPtr (Some s)]) in *.
  pose proof (dispatch_effects old a [] [] 0 0 σ1 σ eq_refl) as Hold.
  rewrite <- Heff in Hold.
  destruct (dispatch_returns old a [] 0 σ1) as (n & σm & Hd & _).
  rewrite Hd in Heff1, Hold. cbn [final] in Hold.
  rewrite dispatch_cons in Heff1. subst a.
  rewrite (selected_arguments_text w s) in Heff1
    by (subst w; cbn; destruct Hp as [-> | ->]; [by left|by right]).
  assert (effects σ_with = effects (after_call w [VString s] σm)) as Hwith.
  { rewrite Heff1. destruct (completes w [VString s] σm); cbn [dispatch final];
      unfold mret, M_ret; cbn [final]; by rewrite ?effects_mismatch_logged. }
  unfold effects in Hwith, Hold. cbn in Hwith. simplify_eq.
  split; congruence.
Qed.

End PublishClaims.

(** ** The scans of the registry *)

Section ScanProofs.
Context {W : Type}.
Implicit Types (b : EventBus W) (l : list (string * list (CallbackWrapper W))).

Lemma names_scan l acc :
  foldl push_name_if_subscribed acc l = acc ++ (filter subscribed l).*1.
Proof.
  revert acc. induction l as [|[name cbs] l IH]; intros acc; cbn [foldl].
  - by rewrite app_nil_r.
  - rewrite IH, filter_cons. unfold push_name_if_subscribed, subscribed.
    cbn [snd fst]. destruct cbs as [|w cbs]; cbn.
    + done.
    + rewrite decide_True by done. by rewrite <- app_assoc.
Qed.

Lemma getAllEventNames_unfold b :
  getAllEventNames b = (filter subscribed (map_to_list (callbacks_map_ b))).*1.
Proof. unfold getAllEventNames. by rewrite names_scan. Qed.

Lemma elem_of_getAllEventNames b eventName :
  eventName ∈ getAllEventNames b ↔
  ∃ cbs, callbacks_map_ b !! eventName = Some cbs ∧ cbs ≠ [].
Proof.
  rewrite getAllEventNames_unfold, list_elem_of_fmap. split.
  - intros ([name cbs] & -> & [Hs Hin%elem_of_map_to_list]%list_elem_of_filter).
    by exists cbs.
  - intros (cbs & Hlook & Hne). exists (eventName, cbs). split; [done|].
    apply list_elem_of_filter. split; [done|]. by apply elem_of_map_to_list.
Qed.

Lemma NoDup_getAllEventNames b : NoDup (getAllEventNames b).
Proof.
  rewrite getAllEventNames_unfold. apply NoDup_fmap_fst.
  - intros name cbs1 cbs2 [_ H1]%list_elem_of_filter [_ H2]%list_elem_of_filter.
    exact (map_to_list_unique _ _ _ _ H1 H2).
  - apply NoDup_filter, NoDup_map_to_list.
Qed.

Lemma isEventRegistered_true b eventName :
  isEventRegistered b eventName = true ↔
  ∃ cbs, callbacks_map_ b !! eventName = Some cbs ∧ cbs ≠ [].
Proof.
  unfold isEventRegistered.
  destruct (callbacks_map_ b !! eventName) as [cbs|].
  - rewrite negb_true_iff, bool_decide_eq_false. split.
    + intros Hne. by exists cbs.
    + by intros (cbs' & [= <-] & Hne).
  - split; [done|]. by intros (cbs & [=] & _).
Qed.

Lemma max_list_with_bound {A} (f : A → nat) (x : A) (xs : list A) :
  x ∈ xs → f x ≤ max_list_with f xs.
Proof.
  induction 1 as [x xs|x y xs _ IH]; cbn; lia.
Qed.

Lemma count_entry_nil stats name :
  count_entry stats (name, @nil (CallbackWrapper W)) = stats.
Proof. done. Qed.

Lemma count_entry_cons stats name w (cbs : list (CallbackWrapper W)) :
  count_entry stats (name, w :: cbs) =
    {| total_events := S (total_events stats);
       total_callbacks := total_callbacks stats + S (length cbs);
       max_callbacks_per_event :=
         max_callbacks_per_event stats `max` S (length cbs);
       most_subscribed_event :=
         if bool_decide (max_callbacks_per_event stats < S (length cbs))
         then name else most_subscribed_event stats |}.
Proof.
  unfold count_entry. cbn. case_bool_decide; f_equal; lia.
Qed.

(** The four accumulators of the scan of [getStats], from any start
    and over any enumeration of entries. *)
Lemma stats_scan l stats0 :
  let stats := foldl count_entry stats0 l in
  total_events stats = total_events stats0 + length (filter subscribed l) ∧
  total_callbacks stats =
    total_callbacks stats0 + sum_list_with (λ pair, length pair.2) l ∧
  max_callbacks_per_event stats =
    max_callbacks_per_event stats0 `max` max_list_with (λ pair, length pair.2) l ∧
  ((most_subscribed_event stats = most_subscribed_event stats0 ∧
    max_callbacks_per_event stats = max_callbacks_per_event stats0) ∨
   (∃ cbs, (most_subscribed_event stats, cbs) ∈ l ∧
           length cbs = max_callbacks_per_event stats)).
Proof.
  revert stats0. induction l as [|[name cbs] l IH]; intros stats0; cbn [foldl].
  - cbn. repeat split; [lia..|]. by left.
  - destruct (IH (count_entry stats0 (name, cbs))) as (He & Hc & Hm & Hn).
    cbv zeta. rewrite filter_cons.
    cbn [sum_list_with max_list_with snd].
    destruct cbs as [|w cbs].
    + rewrite count_entry_nil in *. rewrite decide_False by (by intros []).
      cbn [length]. split; [lia|]. split; [lia|]. split; [lia|].
      destruct Hn as [?|(cbs' & ? & ?)]; [by left|right].
      exists cbs'. split; [by apply elem_of_cons; right|done].
    + rewrite count_entry_cons in *. rewrite decide_True by done.
      cbn [total_events total_callbacks max_callbacks_per_event
           most_subscribed_event length] in *.
      split; [lia|]. split; [lia|]. split; [lia|].
      destruct Hn as [[Hname Hmax]|(cbs' & ? & ?)].
      * case_bool_decide as Hgrow.
        -- right. exists (w :: cbs). rewrite Hname, Hmax.
           split; [by apply elem_of_cons; left|cbn; lia].
        -- left. rewrite Hname, Hmax. split; [done|lia].
      * right. exists cbs'. split; [by apply elem_of_cons; right|done].
Qed.

(** [getStats] in terms of the registry: the number of entries with a
    subscription, the sum and the maximum of the subscription counts,
    and an event whose count is that maximum. *)
Lemma getStats_spec b :
  let stats := getStats b in
  total_events stats = size (filter subscribed (callbacks_map_ b)) ∧
  total_callbacks stats =
    sum_list_with (λ pair, length pair.2) (map_to_list (callbacks_map_ b)) ∧
  (∀ eventName, getCallbackCount b eventName ≤ max_callbacks_per_event stats) ∧
  getCallbackCount b (most_subscribed_event stats) =
    max_callbacks_per_event stats.
Proof.
  cbv zeta. unfold getStats.
  set (stats0 := {| total_events := 0 |}).
  destruct (stats_scan (map_to_list (callbacks_map_ b)) stats0)
    as (He & Hc & Hm & Hn).
  cbv zeta in *. cbn [total_events total_callbacks max_callbacks_per_event
                      most_subscribed_event stats0] in *.
  assert (∀ eventName,
    getCallbackCount b eventName ≤
    max_list_with (λ pair : string * list (CallbackWrapper W), length pair.2)
      (map_to_list (callbacks_map_ b))) as Hle.
  { intros eventName. unfold getCallbackCount.
    destruct (callbacks_map_ b !! eventName) as [cbs|] eqn:Hlook; [|lia].
    apply elem_of_map_to_list in Hlook.
    exact (max_list_with_bound (λ pair, length pair.2) _ _ Hlook). }
  split; [|split; [done|split]].
  - rewrite He, <- length_map_to_list, map_filter_alt. cbn.
    apply Permutation_length. symmetry. apply map_to_list_to_map.
    apply (sublist_NoDup _ _ (NoDup_fst_map_to_list (callbacks_map_ b))).
    apply fmap_sublist, sublist_filter.
  - intros eventName. rewrite Hm. cbn. apply Hle.
  - destruct Hn as [[Hname Hmax]|(cbs & Hin%elem_of_map_to_list & Hlen)].
    + rewrite Hname, Hmax. rewrite Hmax in Hm. cbn in Hm.
      specialize (Hle ""). rewrite <- Hm in Hle. lia.
    + unfold getCallbackCount. by rewrite Hin.
Qed.

(** C5: [getStats] reports the number of events that have at least one
    subscription, the sum of the subscription counts of all events, a
    bound on the subscription count of every event, and an event whose
    subscription count is that bound.  After three [subscribe] calls on
    ["x"] and one on ["y"] on a fresh bus, in any order of the four
    calls, it reports 2 events, 4 callbacks, at most 3 per event, and
    ["x"]. *)
Theorem getStats_snapshot b :
  (let stats := getStats b in
   total_events stats = size (filter subscribed (callbacks_map_ b)) ∧
   total_callbacks stats =
     sum_list_with (λ pair, length pair.2) (map_to_list (callbacks_map_ b)) ∧
   (∀ eventName,
      getCallbackCount b eventName ≤ max_callbacks_per_event stats) ∧
   getCallbackCount b (most_subscribed_event stats) =
     max_callbacks_per_event stats) ∧
  (∀ verbose (world0 : W) (s1 s2 s3 s4 : list ptype * callback W),
     Forall
       (λ names,
          getStats (bus (final (run (subscribe_in_order names [s1; s2; s3; s4])
                                  (fresh verbose world0)))) =
            {| total_events := 2; total_callbacks := 4;
               max_callbacks_per_event := 3; most_subscribed_event := "x" |})
       [["x"; "x"; "x"; "y"]; ["x"; "x"; "y"; "x"];
        ["x"; "y"; "x"; "x"]; ["y"; "x"; "x"; "x"]]).
Proof.
  split; [apply getStats_spec|].
  intros [] world0 s1 s2 s3 s4; repeat constructor; vm_compute; reflexivity.
Qed.

Lemma lookup_without_entry b eventName eventName' :
  callbacks_map_ b !! eventName = Some [] →
  default [] (callbacks_map_ (without_entry b eventName) !! eventName') =
  default [] (callbacks_map_ b !! eventName').
Proof.
  intros Hempty. cbn. destruct (decide (eventName = eventName')) as [<-|Hne].
  - by rewrite lookup_delete_eq, Hempty.
  - by rewrite lookup_delete_ne.
Qed.

Lemma isEventRegistered_default b eventName :
  isEventRegistered b eventName =
    negb (bool_decide (default [] (callbacks_map_ b !! eventName) = [])).
Proof.
  unfold isEventRegistered. by destruct (callbacks_map_ b !! eventName).
Qed.

Lemma getCallbackCount_default b eventName :
  getCallbackCount b eventName =
    length (default [] (callbacks_map_ b !! eventName)).
Proof.
  unfold getCallbackCount. by destruct (callbacks_map_ b !! eventName).
Qed.

(** C7: an entry without subscriptions is not registered, has count 0
    and is not listed; the listing has exactly the events with a
    subscription, each once; and dropping such an entry from the
    registry changes the answer of no query: [isEventRegistered] and
    [getCallbackCount] agree on every name, [getAllEventNames] lists
    the same names, and [getStats] counts the same events, callbacks
    and maximum. *)
Theorem empty_entry_is_unregistered b :
  (∀ eventName,
     isEventRegistered b eventName = true ↔
     ∃ cbs, callbacks_map_ b !! eventName = Some cbs ∧ cbs ≠ []) ∧
  (∀ eventName,
     eventName ∈ getAllEventNames b ↔
     ∃ cbs, callbacks_map_ b !! eventName = Some cbs ∧ cbs ≠ []) ∧
  NoDup (getAllEventNames b) ∧
  (∀ eventName,
     callbacks_map_ b !! eventName = Some [] →
     isEventRegistered b eventName = false ∧
     getCallbackCount b eventName = 0 ∧
     (eventName ∉ getAllEventNames b) ∧
     (∀ name, isEventRegistered (without_entry b eventName) name =
              isEventRegistered b name) ∧
     (∀ name, getCallbackCount (without_entry b eventName) name =
              getCallbackCount b name) ∧
     getAllEventNames (without_entry b eventName) ≡ₚ getAllEventNames b ∧
     total_events (getStats (without_entry b eventName)) =
       total_events (getStats b) ∧
     total_callbacks (getStats (without_entry b eventName)) =
       total_callbacks (getStats b) ∧
     max_callbacks_per_event (getStats (without_entry b eventName)) =
       max_callbacks_per_event (getStats b)).
Proof.
  split; [apply isEventRegistered_true|].
  split; [apply elem_of_getAllEventNames|].
  split; [apply NoDup_getAllEventNames|].
  intros eventName Hempty.
  assert (∀ name, getCallbackCount (without_entry b eventName) name =
                  getCallbackCount b name) as Hcount.
  { intros name. by rewrite !getCallbackCount_default, lookup_without_entry. }
  pose proof (map_to_list_delete _ _ _ Hempty) as Hperm.
  destruct (getStats_spec b) as (He & Hc & Hle & Hmax).
  destruct (getStats_spec (without_entry b eventName))
    as (He' & Hc' & Hle' & Hmax').
  cbv zeta in *.
  split; [by rewrite isEventRegistered_default, Hempty|].
  split; [by rewrite getCallbackCount_default, Hempty|].
  split.
  { rewrite elem_of_getAllEventNames. intros (cbs & Hlook & Hne). congruence. }
  split.
  { intros name. by rewrite !isEventRegistered_default, lookup_without_entry. }
  split; [done|]. split.
  { rewrite !getAllEventNames_unfold. cbn [without_entry callbacks_map_].
    rewrite <- Hperm, filter_cons, decide_False; [done|].
    unfold subscribed. cbn. by intros []. }
  split.
  { rewrite He, He'. cbn [without_entry callbacks_map_].
    rewrite map_filter_delete, delete_id; [done|].
    apply map_lookup_filter_None. right. intros cbs Hlook.
    unfold subscribed. cbn. intros Hne. congruence. }
  split.
  { rewrite Hc, Hc'. cbn [without_entry callbacks_map_]. by rewrite <- Hperm. }
  apply Nat.le_antisymm.
  - rewrite <- Hmax', Hcount. apply Hle.
  - rewrite <- Hmax, <- Hcount. apply Hle'.
Qed.

End ScanProofs.

(** ** Subscription ids *)

Section IdProofs.
Context {W : Type}.
Implicit Types (σ : Sys W) (ops : list (operation W)).

Lemma size_t_wrap_small n : (n ≤ SIZE_MAX)%N → size_t_wrap n = n.
Proof. intros Hn. unfold size_t_wrap, SIZE_MAX in *. apply N.mod_small. lia. Qed.

Lemma size_t_wrap_bound n : (size_t_wrap n ≤ SIZE_MAX)%N.
Proof.
  unfold size_t_wrap, SIZE_MAX.
  pose proof (N.mod_upper_bound n (18446744073709551615 + 1)). lia.
Qed.

Lemma size_t_wrap_add n k :
  size_t_wrap (size_t_wrap n + k) = size_t_wrap (n + k).
Proof. unfold size_t_wrap. apply N.Div0.add_mod_idemp_l. Qed.

Lemma unsubscribe_unfold eventName id σ :
  unsubscribe eventName id σ =
    match callbacks_map_ (bus σ) !! eventName with
    | None => Returns false σ
    | Some callbacks =>
        match list_find (λ wrapper, id_ wrapper = id) callbacks with
        | Some (i, _) =>
            Returns true
              {| bus := {| next_id_ := next_id_ (bus σ);
                           callbacks_map_ :=
                             <[eventName := delete i callbacks]>
                               (callbacks_map_ (bus σ));
                           verbose_logging_ := verbose_logging_ (bus σ) |};
                 world := world σ; calls := calls σ; out := out σ |}
        | None => Returns false σ
        end
    end.
Proof.
  unfold unsubscribe, get_id. run_monad.
  destruct (callbacks_map_ (bus σ) !! eventName) as [callbacks|]; [|done].
  by destruct (list_find _ callbacks) as [[i ?]|].
Qed.

Lemma unsubscribe_all_unfold eventName σ :
  unsubscribe_all eventName σ =
    match callbacks_map_ (bus σ) !! eventName with
    | None => Returns 0 σ
    | Some callbacks =>
        Returns (length callbacks)
          {| bus := {| next_id_ := next_id_ (bus σ);
                       callbacks_map_ := delete eventName (callbacks_map_ (bus σ));
                       verbose_logging_ := verbose_logging_ (bus σ) |};
             world := world σ; calls := calls σ; out := out σ |}
    end.
Proof.
  unfold unsubscribe_all. run_monad.
  by destruct (callbacks_map_ (bus σ) !! eventName).
Qed.

(** Every call other than [subscribe] returns and leaves the id counter
    alone. *)
Lemma unsubscribe_next_id eventName id σ :
  ∃ r σ', unsubscribe eventName id σ = Returns r σ' ∧
          next_id_ (bus σ') = next_id_ (bus σ).
Proof.
  rewrite unsubscribe_unfold.
  destruct (callbacks_map_ (bus σ) !! eventName) as [callbacks|]; [|eauto].
  destruct (list_find _ callbacks) as [[i ?]|]; eauto.
Qed.

Lemma unsubscribe_all_next_id eventName σ :
  ∃ r σ', unsubscribe_all eventName σ = Returns r σ' ∧
          next_id_ (bus σ') = next_id_ (bus σ).
Proof.
  rewrite unsubscribe_all_unfold.
  destruct (callbacks_map_ (bus σ) !! eventName); eauto.
Qed.

Lemma publish_if_min_subscribers_returns eventName min_subscribers args σ :
  ∃ r σ', publish_if_min_subscribers eventName min_subscribers args σ
            = Returns r σ' ∧ bus σ' = bus σ.
Proof.
  destruct (publish_returns eventName args σ) as (σ' & Hp & Hb).
  unfold publish_if_min_subscribers. run_monad.
  destruct (callbacks_map_ (bus σ) !! eventName) as [callbacks|]; [|eauto].
  case_bool_decide; [eauto|]. rewrite Hp. eauto.
Qed.

Lemma run_app ops1 ops2 σ :
  run (ops1 ++ ops2) σ =
    (ids1 ← run ops1; ids2 ← run ops2; mret (ids1 ++ ids2)) σ.
Proof.
  revert σ. induction ops1 as [|op ops1 IH]; intros σ.
  - cbn [app run]. unfold mbind, M_bind, mret, M_ret.
    by destruct (run ops2 σ).
  - rewrite <- app_comm_cons. destruct op; cbn [run]; unfold mbind, M_bind.
    + destruct (subscribe eventName signature f σ) as [id σ'|]; [|done].
      rewrite IH. unfold mbind, M_bind, mret, M_ret.
      destruct (run ops1 σ') as [ids1 σ1|]; [|done].
      by destruct (run ops2 σ1).
    + destruct (unsubscribe eventName id σ) as [? σ'|]; [apply IH|done].
    + destruct (unsubscribe_all eventName σ) as [? σ'|]; [apply IH|done].
    + destruct (clear σ) as [? σ'|]; [apply IH|done].
    + destruct (publish eventName args σ) as [? σ'|]; [apply IH|done].
    + destruct (publish_if_min_subscribers eventName min_subscribers args σ)
        as [? σ'|]; [apply IH|done].
    + destruct (setVerboseLogging verbose σ) as [? σ'|]; [apply IH|done].
Qed.

Lemma count_subscribes_cons (op : operation W) ops :
  count_subscribes (op :: ops) =
    (if is_subscribe op then 1 else 0) + count_subscribes ops.
Proof.
  unfold count_subscribes. rewrite filter_cons.
  destruct (is_subscribe op); [by rewrite decide_True|by rewrite decide_False].
Qed.

Lemma StronglySorted_lt_NoDup (ids : list N) :
  StronglySorted N.lt ids → NoDup ids.
Proof.
  induction 1 as [|id ids _ IH Hlt]; constructor; [|done].
  intros Hin. rewrite Forall_forall in Hlt. specialize (Hlt _ Hin). lia.
Qed.

(** The ids issued by a sequence of calls, as long as the counter does
    not pass [SIZE_MAX]. *)
Lemma run_ids ops σ :
  (next_id_ (bus σ) + N.of_nat (count_subscribes ops) ≤ SIZE_MAX)%N →
  ∃ ids σ',
    run ops σ = Returns ids σ' ∧
    next_id_ (bus σ') =
      (next_id_ (bus σ) + N.of_nat (count_subscribes ops))%N ∧
    length ids = count_subscribes ops ∧
    StronglySorted N.lt ids ∧
    Forall (λ id, (next_id_ (bus σ) < id)%N) ids.
Proof.
  revert σ. induction ops as [|op ops IH]; intros σ Hroom.
  { exists [], σ. cbn. repeat split; [lia|constructor..]. }
  rewrite count_subscribes_cons in *.
  assert (∀ A (m : M W A),
    is_subscribe op = false →
    (∃ r σ', m σ = Returns r σ' ∧ next_id_ (bus σ') = next_id_ (bus σ)) →
    ∃ ids σ',
      (m;; run ops) σ = Returns ids σ' ∧
      next_id_ (bus σ') =
        (next_id_ (bus σ) + N.of_nat (0 + count_subscribes ops))%N ∧
      length ids = 0 + count_subscribes ops ∧
      StronglySorted N.lt ids ∧
      Forall (λ id, (next_id_ (bus σ) < id)%N) ids) as Hother.
  { intros A m Hop (r & σ1 & Hm & Hnext). rewrite Hop in Hroom.
    destruct (IH σ1) as (ids & σ' & Hrun & Hnext' & Hlen & Hsorted & Hgt);
      [rewrite Hnext; lia|].
    exists ids, σ'. unfold mbind, M_bind. rewrite Hm, Hrun, Hnext', Hnext.
    rewrite Hnext in Hgt. done. }
  destruct op; cbn [run is_subscribe] in *.
  - pose proof (subscribe_unfold eventName signature f σ) as Hsub.
    cbv zeta in Hsub.
    rewrite size_t_wrap_small in Hsub by lia.
    match type of Hsub with _ = Returns _ ?s1 => set (σ1 := s1) in * end.
    destruct (IH σ1) as (ids & σ' & Hrun & Hnext' & Hlen & Hsorted & Hgt);
      [subst σ1; cbn; lia|].
    exists ((next_id_ (bus σ) + 1)%N :: ids), σ'.
    unfold mbind, M_bind. rewrite Hsub, Hrun. subst σ1. cbn in *.
    split; [done|]. split; [lia|]. split; [lia|]. split.
    + by constructor.
    + constructor; [lia|]. eapply Forall_impl; [done|]. cbn. lia.
  - apply Hother; [done|]. apply unsubscribe_next_id.
  - apply Hother; [done|]. apply unsubscribe_all_next_id.
  - apply Hother; [done|]. by eexists _, _.
  - apply Hother; [done|].
    destruct (publish_returns eventName args σ) as (σ' & -> & Hb).
    exists (), σ'. by rewrite Hb.
  - apply Hother; [done|].
    destruct (publish_if_min_subscribers_returns eventName min_subscribers args σ)
      as (r & σ' & -> & Hb).
    exists r, σ'. by rewrite Hb.
  - apply Hother; [done|]. by eexists _, _.
Qed.

(** C4, as amended: over any sequence of calls that does not take the
    id counter past [SIZE_MAX] (at most 2^64 - 1 ids issued since the
    bus was constructed), the ids that the [subscribe] calls return are
    strictly increasing in the order of the calls, pairwise distinct,
    and greater than the counter before the sequence, hence different
    from every id issued earlier. *)
Theorem subscribe_ids_increasing ops σ :
  (next_id_ (bus σ) + N.of_nat (count_subscribes ops) ≤ SIZE_MAX)%N →
  ∃ ids σ',
    run ops σ = Returns ids σ' ∧
    length ids = count_subscribes ops ∧
    StronglySorted N.lt ids ∧
    NoDup ids ∧
    Forall (λ id, (next_id_ (bus σ) < id)%N) ids.
Proof.
  intros Hroom.
  destruct (run_ids ops σ Hroom) as (ids & σ' & Hrun & _ & Hlen & Hsorted & Hgt).
  exists ids, σ'. repeat split; try done. by apply StronglySorted_lt_NoDup.
Qed.

Lemma ids_of_lookup (b : EventBus W) eventName callbacks :
  callbacks_map_ b !! eventName = Some callbacks →
  ids_of b eventName = id_ <$> callbacks.
Proof. unfold ids_of. by intros ->. Qed.

(** [unsubscribe] of an id that is stored under the event: the first
    subscription with the id goes, the others stay in their order. *)
Lemma unsubscribe_present eventName id σ :
  id ∈ ids_of (bus σ) eventName →
  ∃ before w after,
    callbacks_map_ (bus σ) !! eventName = Some (before ++ w :: after) ∧
    id_ w = id ∧ (id ∉ id_ <$> before) ∧
    unsubscribe eventName id σ =
      Returns true (with_callbacks eventName (before ++ after) σ).
Proof.
  unfold ids_of. rewrite unsubscribe_unfold. intros Hin.
  destruct (callbacks_map_ (bus σ) !! eventName) as [callbacks|];
    [|by apply elem_of_nil in Hin].
  cbn in Hin. apply list_elem_of_fmap in Hin as (w0 & Hid & Hw0).
  destruct (list_find_elem_of (λ wrapper, id_ wrapper = id) callbacks w0 Hw0)
    as [[i w] Hfind]; [done|].
  rewrite Hfind. apply list_find_Some in Hfind as (Hi & Hw & Hfirst).
  exists (take i callbacks), w, (drop (S i) callbacks).
  rewrite take_drop_middle by done. rewrite delete_take_drop.
  split; [done|]. split; [done|]. split; [|done].
  intros (w' & Hid' & (j & Hj & Hlt)%elem_of_take)%list_elem_of_fmap.
  by apply (Hfirst j w').
Qed.

(** [unsubscribe] of an unknown event, or of an id that is not stored
    under the event. *)
Lemma unsubscribe_absent eventName id σ :
  id ∉ ids_of (bus σ) eventName →
  unsubscribe eventName id σ = Returns false σ.
Proof.
  unfold ids_of. rewrite unsubscribe_unfold. intros Hnotin.
  destruct (callbacks_map_ (bus σ) !! eventName) as [callbacks|]; [|done].
  destruct (list_find _ callbacks) as [[i w]|] eqn:Hfind; [|done].
  apply list_find_Some in Hfind as (Hi & Hw & _). destruct Hnotin.
  cbn. apply list_elem_of_fmap. exists w. split; [done|].
  by eapply list_elem_of_lookup_2.
Qed.

(** C6, as amended: when a subscription with the id is stored under
    the event, [unsubscribe] returns true and removes the first such
    subscription, leaving the other subscriptions of the event in their
    order and everything else as it was; when the event or the id is
    unknown it returns false and changes nothing; and when the ids
    stored under the event are pairwise distinct (as they are until the
    id counter wraps around), the same call repeated after a successful
    removal returns false. *)
Theorem unsubscribe_spec eventName id σ :
  (id ∈ ids_of (bus σ) eventName →
   ∃ before w after,
     callbacks_map_ (bus σ) !! eventName = Some (before ++ w :: after) ∧
     id_ w = id ∧ (id ∉ id_ <$> before) ∧
     unsubscribe eventName id σ =
       Returns true (with_callbacks eventName (before ++ after) σ)) ∧
  (id ∉ ids_of (bus σ) eventName →
   unsubscribe eventName id σ = Returns false σ) ∧
  (NoDup (ids_of (bus σ) eventName) →
   ∀ σ', unsubscribe eventName id σ = Returns true σ' →
         unsubscribe eventName id σ' = Returns false σ').
Proof.
  split; [apply unsubscribe_present|]. split; [apply unsubscribe_absent|].
  intros Hnodup σ' Hfirst.
  destruct (decide (id ∈ ids_of (bus σ) eventName)) as [Hin|Hnotin];
    [|by rewrite unsubscribe_absent in Hfirst].
  destruct (unsubscribe_present eventName id σ Hin)
    as (before & w & after & Hlook & Hid & Hbefore & Hun).
  rewrite Hun in Hfirst. injection Hfirst as <-.
  apply unsubscribe_absent.
  rewrite (ids_of_lookup _ _ _ Hlook) in Hnodup.
  rewrite (ids_of_lookup _ _ (before ++ after))
    by (cbn; apply lookup_insert_eq).
  rewrite fmap_app in *. cbn in Hnodup.
  apply NoDup_app in Hnodup as (_ & _ & Hafter%NoDup_cons).
  destruct Hafter as [Hafter _]. rewrite Hid in Hafter.
  intros [?|?]%elem_of_app; done.
Qed.

End IdProofs.

(** ** The id counter at its limit *)

Lemma churn_ids_S next n :
  churn_ids next (S n) =
    size_t_wrap (next + 1) :: churn_ids (size_t_wrap (next + 1)) n.
Proof.
  unfold churn_ids. cbn [seq]. rewrite fmap_cons.
  apply (f_equal2 cons).
  - done.
  - rewrite <- fmap_S_seq, <- list_fmap_compose. apply list_fmap_ext.
    intros _ k _. cbn -[size_t_wrap N.of_nat].
    rewrite size_t_wrap_add. f_equal. lia.
Qed.

(** [n] rounds of [churn] advance the id counter by [n], modulo the
    range of [size_t], and leave the rest of the state as it was. *)
Lemma run_churn n next callbacks_map world0 :
  (next ≤ SIZE_MAX)%N →
  callbacks_map !! "t" = None →
  run (mjoin (replicate n churn)) (quiet next callbacks_map world0) =
    Returns (churn_ids next n)
      (quiet (size_t_wrap (next + N.of_nat n)) callbacks_map world0).
Proof.
  intros Hnext Hfree. revert next Hnext.
  induction n as [|n IH]; intros next Hnext.
  - cbn. by rewrite N.add_0_r, size_t_wrap_small.
  - change (mjoin (replicate (S n) churn))
      with (churn ++ mjoin (replicate n churn)).
    rewrite run_app. unfold mbind at 1, M_bind at 1.
    assert (run churn (quiet next callbacks_map world0) =
            Returns [size_t_wrap (next + 1)]
              (quiet (size_t_wrap (next + 1)) callbacks_map world0)) as ->.
    { unfold churn. cbn [run]. unfold mbind at 1, M_bind at 1.
      rewrite subscribe_unfold. cbn -[size_t_wrap].
      unfold mbind, M_bind. rewrite unsubscribe_all_unfold.
      cbn -[size_t_wrap]. rewrite lookup_insert_eq.
      unfold quiet, mret, M_ret. by rewrite delete_insert_eq, delete_id. }
    unfold mbind, M_bind. rewrite IH by apply size_t_wrap_bound.
    unfold mret, M_ret. rewrite churn_ids_S, size_t_wrap_add.
    do 3 f_equal. lia.
Qed.

Lemma run_last_two_ids :
  ∃ σ', run [Subscribe "t" [] counting; Subscribe "t" [] counting]
          (quiet (SIZE_MAX - 1)%N ∅ 0) = Returns [SIZE_MAX; 0%N] σ'.
Proof. eexists. vm_compute. reflexivity. Qed.

(** C4, counterexample: on a fresh bus, [SIZE_MAX - 1] rounds of
    subscribing and unsubscribing use the ids 1 to [SIZE_MAX - 1]; the
    next two [subscribe] calls return [SIZE_MAX] and then 0, so the ids
    are not increasing. *)
Lemma subscribe_ids_wrap_around :
  ∃ front σ',
    run wrap_around (fresh false 0) = Returns (front ++ [SIZE_MAX; 0%N]) σ' ∧
    ¬ StronglySorted N.lt (front ++ [SIZE_MAX; 0%N]).
Proof.
  destruct run_last_two_ids as [σ' Hlast].
  exists (churn_ids 0%N (N.to_nat (SIZE_MAX - 1))), σ'. split.
  - unfold wrap_around. rewrite run_app. unfold mbind, M_bind.
    change (fresh false 0) with (quiet 0%N ∅ 0).
    rewrite run_churn; [|done..].
    rewrite N2Nat.id, N.add_0_l, size_t_wrap_small by done.
    by rewrite Hlast.
  - intros [_ [_ Hsorted]]%StronglySorted_app.
    apply StronglySorted_cons in Hsorted as [Hlt _].
    apply Forall_cons in Hlt as [Hlt _]. unfold SIZE_MAX in Hlt. lia.
Qed.

Lemma run_first_e :
  run [Subscribe "e" [] counting] (fresh false 0) =
    Returns [1%N] (quiet 1%N {["e" := [nullary_counting]]} 0).
Proof. vm_compute. reflexivity. Qed.

Lemma run_second_e :
  ∃ σ1 σ2 σ3,
    run [Subscribe "e" [] counting] (quiet 0%N {["e" := [nullary_counting]]} 0)
      = Returns [1%N] σ1 ∧
    unsubscribe "e" 1%N σ1 = Returns true σ2 ∧
    unsubscribe "e" 1%N σ2 = Returns true σ3.
Proof. do 3 eexists. vm_compute. repeat split; reflexivity. Qed.

(** C6, counterexample: subscribe to ["e"] on a fresh bus (id 1), let
    [SIZE_MAX] rounds of subscribing and unsubscribing on another event
    take the id counter around to 0, and subscribe to ["e"] again: the
    second subscription also has id 1.  Then [unsubscribe("e", 1)]
    returns true, and the same call repeated returns true again. *)
Lemma unsubscribe_repeated_after_wrap :
  ∃ ids σ1 σ2 σ3,
    run id_reused (fresh false 0) = Returns ids σ1 ∧
    ids_of (bus σ1) "e" = [1%N; 1%N] ∧
    unsubscribe "e" 1%N σ1 = Returns true σ2 ∧
    unsubscribe "e" 1%N σ2 = Returns true σ3.
Proof.
  destruct run_second_e as (σ1 & σ2 & σ3 & Hrun & Hfirst & Hsecond).
  exists ([1%N] ++ churn_ids 1%N (N.to_nat SIZE_MAX) ++ [1%N]), σ1, σ2, σ3.
  split; [|split; [|done]].
  - unfold id_reused.
    change (Subscribe "e" [] counting :: ?l)
      with ([Subscribe "e" [] counting] ++ l).
    rewrite run_app. unfold mbind, M_bind. rewrite run_first_e.
    cbv beta iota. rewrite run_app. unfold mbind, M_bind.
    rewrite run_churn; [|done..].
    cbv beta iota. rewrite N2Nat.id.
    change (size_t_wrap (1 + SIZE_MAX)%N) with 0%N.
    by rewrite Hrun.
  - revert Hrun. vm_compute. by intros [= <-].
Qed.

(** ** The claims at concrete inputs *)

(** C1, counterexample: a bundle of one argument and a wrapper that
    declares no parameter differ in their counts, and [try_invoke]
    invokes the callback and returns true. *)
Lemma try_invoke_nullary_ignores_bundle :
  any_count (Some [VInt 5]) ≠ length (Args nullary_counting) ∧
  try_invoke nullary_counting (Some [VInt 5]) (fresh false 0) =
    Returns true
      {| bus := EventBus_new false; world := 1; calls := [(1%N, [])];
         out := [] |}.
Proof. split; [cbn; lia|reflexivity]. Qed.

Lemma try_invoke_arity_witness :
  try_invoke binary_counting (Some [VInt 1]) (fresh false 0) =
    Returns false (fresh false 0) ∧
  try_invoke nullary_counting (Some [VInt 1]) (fresh false 0) =
    Returns (completes nullary_counting [] (fresh false 0))
      (after_call nullary_counting [] (fresh false 0)).
Proof.
  split.
  - apply (proj1 (try_invoke_arity binary_counting (Some [VInt 1])
                    (fresh false 0))); [discriminate|simpl; lia].
  - apply (proj2 (try_invoke_arity nullary_counting (Some [VInt 1])
                    (fresh false 0))). reflexivity.
Defined.

(** C2, at the failing input: a throwing callback and a counting
    callback are subscribed to ["e"] and ["e"] is published.  Both
    callbacks are run and [publish] returns, but the exception of the
    first is reported nowhere: without verbose logging nothing is
    written, and with it the subscriber is reported as a type mismatch
    on [std::cout]. *)
Theorem publish_swallows_callback_exception :
  (∃ σ', publish "e" [] (two_subscribers false) = Returns () σ' ∧
         calls σ' = [(1%N, []); (2%N, [])] ∧
         world σ' = 1 ∧
         out σ' = []) ∧
  (∃ σ', publish "e" [] (two_subscribers true) = Returns () σ' ∧
         calls σ' = [(1%N, []); (2%N, [])] ∧
         out σ' = [SubscribeEvent "e" 1%N []; SubscribeEvent "e" 2%N [];
                   PublishEvent "e" 0 []; TypeMismatch 1%N [] [];
                   SuccessfullyCalled 1]).
Proof.
  split; eexists; (split; [vm_compute; reflexivity|]); repeat split.
Qed.


Lemma subscribe_ids_increasing_witness :
  ∃ ids σ',
    run [Subscribe "a" [] counting; Unsubscribe "a" 1%N;
         Subscribe "a" [] counting] (fresh false 0) = Returns ids σ' ∧
    length ids = 2 ∧
    StronglySorted N.lt ids ∧
    NoDup ids ∧
    Forall (λ id, (0 < id)%N) ids.
Proof.
  apply (subscribe_ids_increasing
           [Subscribe "a" [] counting; Unsubscribe "a" 1%N;
            Subscribe "a" [] counting] (fresh false 0)).
  vm_compute. discriminate.
Defined.

Lemma unsubscribe_spec_witness :
  (∃ before w after,
     callbacks_map_ (bus (two_subscribers false)) !! "e"
       = Some (before ++ w :: after) ∧
     id_ w = 2%N ∧ (2%N ∉ id_ <$> before) ∧
     unsubscribe "e" 2%N (two_subscribers false) =
       Returns true
         (with_callbacks "e" (before ++ after) (two_subscribers false))) ∧
  unsubscribe "e" 3%N (two_subscribers false) =
    Returns false (two_subscribers false) ∧
  (∀ σ', unsubscribe "e" 2%N (two_subscribers false) = Returns true σ' →
         unsubscribe "e" 2%N σ' = Returns false σ').
Proof.
  split; [|split].
  - apply (proj1 (unsubscribe_spec "e" 2%N (two_subscribers false))).
    change (2%N ∈ [1%N; 2%N]). apply (bool_decide_unpack _). vm_compute.
    exact I.
  - apply (proj1 (proj2 (unsubscribe_spec "e" 3%N (two_subscribers false)))).
    change (3%N ∉ [1%N; 2%N]). apply (bool_decide_unpack _). vm_compute.
    exact I.
  - apply (proj2 (proj2 (unsubscribe_spec "e" 2%N (two_subscribers false)))).
    change (NoDup [1%N; 2%N]). apply (bool_decide_unpack _). vm_compute.
    exact I.
Defined.

Lemma publish_literal_to_string_subscriber_witness :
  map_to_source_type (ConstRef TString) = type_of (decay_arg (Literal "World")) ∧
  convert_parameter (ConstRef TString) (decay_arg (Literal "World"))
    = inr (VString "World") ∧
  ∃ id σ1 σ_without σ_with,
    subscribe "greet" [ConstRef TString] counting (fresh false 0)
      = Returns id σ1 ∧
    publish "greet" [Literal "World"] (fresh false 0) = Returns () σ_without ∧
    publish "greet" [Literal "World"] σ1 = Returns () σ_with ∧
    calls σ_with = calls σ_without ++ [(id, [VString "World"])] ∧
    world σ_with = (counting [VString "World"] (world σ_without)).1.
Proof.
  apply (publish_literal_to_string_subscriber (fresh false 0) "greet"
           (ConstRef TString) counting "World").
  right. reflexivity.
Defined.

Lemma empty_entry_is_unregistered_witness :
  callbacks_map_ emptied !! "e" = Some [] ∧
  isEventRegistered emptied "e" = false ∧
  getCallbackCount emptied "e" = 0 ∧
  ("e" ∉ getAllEventNames emptied) ∧
  getAllEventNames (without_entry emptied "e") ≡ₚ getAllEventNames emptied.
Proof.
  assert (callbacks_map_ emptied !! "e" = Some []) as Hempty by reflexivity.
  destruct (empty_entry_is_unregistered emptied) as (_ & _ & _ & Hentry).
  destruct (Hentry "e" Hempty) as (Hreg & Hcount & Hnames & _ & _ & Hperm & _).
  repeat split; assumption.
Defined.

(** ** Registry operations and the queries *)

Section RegistryProofs.
Context {W : Type}.
Implicit Types (σ : Sys W) (b : EventBus W) (w : CallbackWrapper W).

Lemma getCallbackCount_callbacks_of b eventName :
  getCallbackCount b eventName = length (callbacks_of b eventName).
Proof. apply getCallbackCount_default. Qed.

Lemma isEventRegistered_callbacks_of b eventName :
  isEventRegistered b eventName = true ↔ callbacks_of b eventName ≠ [].
Proof.
  rewrite isEventRegistered_default, negb_true_iff, bool_decide_eq_false. done.
Qed.

Lemma elem_of_getAllEventNames_callbacks_of b eventName :
  eventName ∈ getAllEventNames b ↔ callbacks_of b eventName ≠ [].
Proof.
  rewrite elem_of_getAllEventNames. unfold callbacks_of. split.
  - by intros (cbs & -> & Hne).
  - destruct (callbacks_map_ b !! eventName) as [cbs|]; [|done].
    intros Hne. by exists cbs.
Qed.

(** Publishing to an event without subscriptions runs no callback. *)
Lemma publish_nothing eventName args σ :
  callbacks_of (bus σ) eventName = [] →
  effects (final (publish eventName args σ)) = effects σ.
Proof.
  intros Hnone. rewrite publish_effects.
  unfold callbacks_of in Hnone. by rewrite Hnone.
Qed.

(** X1: [subscribe] returns the counter's next value and appends one
    wrapper with that id, the given signature and the given callback to
    the end of the event's subscriptions.  The entries of other events
    are untouched, the event's count grows by one, the event is
    registered and listed, and no callback runs. *)
Theorem subscribe_appends eventName signature (f : callback W) σ :
  ∃ σ',
    subscribe eventName signature f σ =
      Returns (size_t_wrap (next_id_ (bus σ) + 1)) σ' ∧
    next_id_ (bus σ') = size_t_wrap (next_id_ (bus σ) + 1) ∧
    callbacks_of (bus σ') eventName =
      callbacks_of (bus σ) eventName
        ++ [create_wrapper_from_function
              (size_t_wrap (next_id_ (bus σ) + 1)) signature f] ∧
    (∀ other, other ≠ eventName →
       callbacks_map_ (bus σ') !! other = callbacks_map_ (bus σ) !! other) ∧
    getCallbackCount (bus σ') eventName =
      S (getCallbackCount (bus σ) eventName) ∧
    isEventRegistered (bus σ') eventName = true ∧
    eventName ∈ getAllEventNames (bus σ') ∧
    effects σ' = effects σ.
Proof.
  pose proof (subscribe_unfold eventName signature f σ) as Hsub.
  cbv zeta in Hsub.
  match type of Hsub with _ = Returns _ ?s1 => set (σ' := s1) in * end.
  assert (callbacks_of (bus σ') eventName =
    callbacks_of (bus σ) eventName
      ++ [create_wrapper_from_function
            (size_t_wrap (next_id_ (bus σ) + 1)) signature f]) as Hcbs.
  { unfold callbacks_of at 1. subst σ'. cbn. by rewrite lookup_insert_eq. }
  exists σ'. split; [done|]. split; [done|]. split; [done|]. split.
  { intros other Hne. subst σ'. cbn. by rewrite lookup_insert_ne. }
  split.
  { rewrite !getCallbackCount_callbacks_of, Hcbs, length_app. cbn. lia. }
  split.
  { apply isEventRegistered_callbacks_of. rewrite Hcbs.
    intros Hnil. by apply app_eq_nil in Hnil as [_ ?]. }
  split; [|done].
  apply elem_of_getAllEventNames_callbacks_of. rewrite Hcbs.
  intros Hnil. by apply app_eq_nil in Hnil as [_ ?].
Qed.

(** X2: [unsubscribe_all] returns the event's subscription count (0 for
    an event without an entry) and erases the entry, leaving the other
    entries, the id counter and the callbacks' world alone.  Afterwards
    a second [unsubscribe_all] returns 0, [unsubscribe] returns false
    for every id, [publish] runs no callback, and
    [publish_if_min_subscribers] returns false for every threshold. *)
Theorem unsubscribe_all_erases_entry eventName σ :
  ∃ σ',
    unsubscribe_all eventName σ =
      Returns (getCallbackCount (bus σ) eventName) σ' ∧
    callbacks_map_ (bus σ') = delete eventName (callbacks_map_ (bus σ)) ∧
    next_id_ (bus σ') = next_id_ (bus σ) ∧
    effects σ' = effects σ ∧
    out σ' = out σ ∧
    unsubscribe_all eventName σ' = Returns 0 σ' ∧
    (∀ id, unsubscribe eventName id σ' = Returns false σ') ∧
    (∀ args, effects (final (publish eventName args σ')) = effects σ') ∧
    (∀ min_subscribers args,
       publish_if_min_subscribers eventName min_subscribers args σ' =
         Returns false σ').
Proof.
  assert (∀ σ', callbacks_map_ (bus σ') !! eventName = None →
    unsubscribe_all eventName σ' = Returns 0 σ' ∧
    (∀ id, unsubscribe eventName id σ' = Returns false σ') ∧
    (∀ args, effects (final (publish eventName args σ')) = effects σ') ∧
    (∀ min_subscribers args,
       publish_if_min_subscribers eventName min_subscribers args σ' =
         Returns false σ')) as Hgone.
  { intros σ' Hnone. split; [by rewrite unsubscribe_all_unfold, Hnone|].
    split; [intros id; by rewrite unsubscribe_unfold, Hnone|].
    split.
    - intros args. apply publish_nothing. unfold callbacks_of. by rewrite Hnone.
    - intros min_subscribers args. unfold publish_if_min_subscribers.
      run_monad. by rewrite Hnone. }
  rewrite unsubscribe_all_unfold. unfold getCallbackCount.
  destruct (callbacks_map_ (bus σ) !! eventName) as [callbacks|] eqn:Hlook.
  - eexists. split; [done|]. cbn. do 4 (split; [done|]).
    apply Hgone. cbn. apply lookup_delete_eq.
  - exists σ. split; [done|]. split; [by rewrite delete_id|].
    do 3 (split; [done|]). by apply Hgone.
Qed.

(** X3: [clear] empties the registry and keeps the id counter.  After
    it every event has count 0 and is not registered, no name is
    listed, the statistics are zero, [publish] runs no callback, and
    the next [subscribe] returns the id after the last one issued
    before the [clear]: ids do not start again. *)
Theorem clear_keeps_counter σ :
  ∃ σ',
    clear σ = Returns () σ' ∧
    callbacks_map_ (bus σ') = ∅ ∧
    next_id_ (bus σ') = next_id_ (bus σ) ∧
    effects σ' = effects σ ∧
    (∀ eventName,
       getCallbackCount (bus σ') eventName = 0 ∧
       isEventRegistered (bus σ') eventName = false) ∧
    getAllEventNames (bus σ') = [] ∧
    getStats (bus σ') =
      {| total_events := 0; total_callbacks := 0;
         max_callbacks_per_event := 0; most_subscribed_event := "" |} ∧
    (∀ eventName args,
       effects (final (publish eventName args σ')) = effects σ') ∧
    (∀ eventName signature (f : callback W),
       ∃ σ'', subscribe eventName signature f σ' =
                Returns (size_t_wrap (next_id_ (bus σ) + 1)) σ'').
Proof.
  eexists. split; [reflexivity|]. cbn. do 3 (split; [done|]).
  split.
  { intros eventName. unfold getCallbackCount, isEventRegistered. cbn.
    by rewrite lookup_empty. }
  split; [by unfold getAllEventNames; cbn; rewrite map_to_list_empty|].
  split; [by unfold getStats; cbn; rewrite map_to_list_empty|].
  split.
  - intros eventName args. apply publish_nothing. unfold callbacks_of. cbn.
    by rewrite lookup_empty.
  - intros eventName signature f. eexists. by rewrite subscribe_unfold.
Qed.

(** X4: a [subscribe] followed by the [unsubscribe] of the id it
    returned, when no subscription of the event already has that id,
    leaves the subscriptions of every event as they were before the two
    calls; only the id counter has moved on. *)
Theorem subscribe_unsubscribe_round_trip eventName signature (f : callback W) σ :
  size_t_wrap (next_id_ (bus σ) + 1) ∉ ids_of (bus σ) eventName →
  ∃ id σ1 σ2,
    subscribe eventName signature f σ = Returns id σ1 ∧
    unsubscribe eventName id σ1 = Returns true σ2 ∧
    (∀ name, callbacks_of (bus σ2) name = callbacks_of (bus σ) name) ∧
    (is_Some (callbacks_map_ (bus σ) !! eventName) →
     callbacks_map_ (bus σ2) = callbacks_map_ (bus σ)) ∧
    next_id_ (bus σ2) = id ∧
    effects σ2 = effects σ.
Proof.
  intros Hfresh.
  pose proof (subscribe_unfold eventName signature f σ) as Hsub.
  cbv zeta in Hsub.
  set (id := size_t_wrap (next_id_ (bus σ) + 1)) in *.
  match type of Hsub with _ = Returns _ ?s1 => set (σ1 := s1) in * end.
  set (old := default [] (callbacks_map_ (bus σ) !! eventName)) in *.
  set (w := create_wrapper_from_function id signature f) in *.
  assert (list_find (λ wrapper, id_ wrapper = id) (old ++ [w]) =
          Some (length old, w)) as Hfind.
  { rewrite list_find_app_r.
    - cbn. by rewrite decide_True.
    - apply list_find_None, Forall_forall. intros w0 Hw0 Hid.
      apply Hfresh. unfold ids_of. fold old. rewrite <- Hid.
      by apply list_elem_of_fmap_2. }
  assert (unsubscribe eventName id σ1 =
          Returns true (with_callbacks eventName old σ1)) as Hun.
  { rewrite unsubscribe_unfold. subst σ1. cbn. rewrite lookup_insert_eq.
    rewrite Hfind. unfold with_callbacks. cbn.
    replace (delete (length old) (old ++ [w])) with old; [done|].
    by rewrite delete_middle, app_nil_r. }
  exists id, σ1, (with_callbacks eventName old σ1).
  split; [done|]. split; [done|]. split.
  { intros name. unfold callbacks_of. subst σ1. cbn.
    destruct (decide (eventName = name)) as [<-|Hne].
    - by rewrite lookup_insert_eq.
    - by rewrite !lookup_insert_ne. }
  split; [|done].
  intros [cbs Hcbs]. subst σ1. cbn. rewrite insert_insert_eq.
  apply insert_id. subst old. by rewrite Hcbs.
Qed.

End RegistryProofs.

(** ** Matching and delivery *)

Section DeliveryProofs.
Context {W : Type}.
Implicit Types (σ : Sys W) (b : EventBus W) (w : CallbackWrapper W).

Lemma fmap_ByValue_eq {A B} (f : A → vtype) (g : B → vtype)
    (xs : list A) (ys : list B) :
  ByValue ∘ f <$> xs = ByValue ∘ g <$> ys ↔ f <$> xs = g <$> ys.
Proof.
  revert ys. induction xs as [|x xs IH]; intros [|y ys]; cbn; try done.
  split; intros [= Hhead Htail].
  - rewrite Hhead. f_equal. by apply IH.
  - rewrite Hhead. f_equal. by apply IH.
Qed.

(** [any_cast] to a tuple of value types compares the types position by
    position. *)
Lemma any_cast_by_value {A} (f : A → vtype) (Ts : list A) (vs : list value) :
  any_cast (ByValue ∘ f <$> Ts) (Some vs) =
    if decide (type_of <$> vs = f <$> Ts) then Some vs else None.
Proof.
  unfold any_cast, tuple_type.
  destruct (decide (type_of <$> vs = f <$> Ts)) as [Heq|Hne].
  - rewrite decide_True; [done|]. by apply fmap_ByValue_eq.
  - rewrite decide_False; [done|]. by intros ?%fmap_ByValue_eq.
Qed.

(** The exact match is a case of the loose match. *)
Lemma any_cast_exact_decayed (Ts : list ptype) (vs : list value) :
  tuple_type vs = Ts → type_of <$> vs = decay_t <$> Ts.
Proof.
  intros <-. unfold tuple_type. rewrite <- list_fmap_compose.
  by apply list_fmap_ext.
Qed.

Lemma selected_arguments_criterion w (vs : list value) :
  Args w ≠ [] →
  selected_arguments w (Some vs) =
    if decide (type_of <$> vs = decay_t <$> Args w) then Some vs
    else if decide (type_of <$> vs = map_to_source_type <$> Args w)
    then match convert_parameters (Args w) vs with
         | inr converted => Some converted
         | inl _ => None
         end
    else None.
Proof.
  intros Hne. unfold selected_arguments.
  destruct (Args w) as [|p ps] eqn:HArgs; [done|].
  rewrite !any_cast_by_value. unfold any_cast.
  destruct (decide (tuple_type vs = p :: ps)) as [Hexact|_].
  - by rewrite decide_True by by apply any_cast_exact_decayed.
  - by repeat case_decide.
Qed.


Lemma convert_parameters_delivered (Ts : list ptype) (vs converted : list value) :
  type_of <$> vs = map_to_source_type <$> Ts →
  convert_parameters Ts vs = inr converted →
  Forall2 delivered_as vs converted.
Proof.
  revert vs converted.
  induction Ts as [|target Ts IH]; intros [|v vs] converted; cbn; try done.
  { intros _ [= <-]. constructor. }
  intros [= Hv Hvs].
  rewrite (convert_parameter_of_source_type target v Hv).
  assert (∀ v', (inr v' : exn + value) =
                  match v with
                  | VConstCharPtr p =>
                      if decide (decay_t target = TString)
                      then std_string_of p else inr v
                  | _ => inr v
                  end → delivered_as v v') as Hhead.
  { intros v'. destruct v as [| | |[s|]| |]; try (intros [= ->]; by left).
    - case_decide; cbn; intros [= ->]; [right; by exists s|by left].
    - case_decide; cbn; [done|]. intros [= ->]. by left. }
  destruct (match v with VConstCharPtr _ => _ | _ => _ end) as [e|v'] eqn:Hconv;
    [done|].
  destruct (convert_parameters Ts vs) as [e|converted'] eqn:Hrest; [done|].
  intros [= <-]. constructor; [by apply Hhead|by apply IH].
Qed.

(** X6: the values a callback with parameters receives are the
    published values, one for one and in their order; the only change
    on the way is that a [const char*] becomes the [std::string] of the
    text it points to.  [try_invoke] never hands a callback a value
    made by [static_cast] or by value-initialisation. *)
Theorem try_invoke_delivers_published_values w (vs args : list value) id σ :
  Args w ≠ [] →
  calls (final (try_invoke w (Some vs) σ)) = calls σ ++ [(id, args)] →
  id = id_ w ∧ Forall2 delivered_as vs args.
Proof.
  intros Hne. rewrite try_invoke_unfold.
  destruct (selected_arguments w (Some vs)) as [args'|] eqn:Hsel; cbn.
  - intros [_ [= <- <-]]%app_inj_tail. split; [done|].
    rewrite selected_arguments_criterion in Hsel by done.
    case_decide as Hloose.
    + injection Hsel as <-. apply Forall2_same_length_lookup_2; [done|].
      intros i v v' Hv Hv'. left. congruence.
    + case_decide as Hsource; [|done].
      destruct (convert_parameters (Args w) vs) as [e|converted] eqn:Hconv;
        [done|].
      injection Hsel as <-. by eapply convert_parameters_delivered.
  - intros Hcalls. apply (f_equal length) in Hcalls.
    rewrite length_app in Hcalls. cbn in Hcalls. lia.
Qed.

Lemma publish_calls eventName args σ :
  calls (final (publish eventName args σ)) =
    calls σ ++ omap (λ w, invocation w (make_args_any args))
                 (callbacks_of (bus σ) eventName).
Proof.
  rewrite publish_unfold. unfold callbacks_of.
  destruct (callbacks_map_ (bus σ) !! eventName) as [[|w rest]|]; cbn -[dispatch].
  1, 3: by rewrite calls_logged, app_nil_r.
  set (actual := type_of ∘ decay_arg <$> args).
  pose proof (dispatch_calls (w :: rest) (make_args_any args) actual 0
                (logged (PublishEvent eventName (length args) actual) σ)) as Hc.
  destruct (dispatch_returns (w :: rest) (make_args_any args) actual 0
              (logged (PublishEvent eventName (length args) actual) σ))
    as (n' & σ' & Hd & _).
  rewrite Hd in Hc |- *. cbn [final] in Hc |- *.
  by rewrite calls_logged, Hc, calls_logged.
Qed.


Lemma convert_parameter_typed target source v :
  convert_parameter target source = inr v → type_of v = decay_t target.
Proof.
  destruct target as [[]|[]|[]], source as [| | |[]|[]|]; cbn; try done;
    by intros [= <-].
Qed.

Lemma convert_parameters_typed (Ts : list ptype) (vs converted : list value) :
  length vs = length Ts →
  convert_parameters Ts vs = inr converted →
  type_of <$> converted = decay_t <$> Ts.
Proof.
  revert vs converted.
  induction Ts as [|target Ts IH]; intros [|v vs] converted; cbn; try done.
  { by intros _ [= <-]. }
  intros [= Hlen].
  destruct (convert_parameter target v) as [e|v'] eqn:Hv; [done|].
  destruct (convert_parameters Ts vs) as [e|converted'] eqn:Hrest; [done|].
  intros [= <-]. cbn. f_equal; [by eapply convert_parameter_typed|by eapply IH].
Qed.

Lemma selected_arguments_typed w a (vs : list value) :
  selected_arguments w a = Some vs → type_of <$> vs = decay_t <$> Args w.
Proof.
  destruct (decide (Args w = [])) as [Hnil|Hne].
  { unfold selected_arguments. rewrite Hnil. by intros [= <-]. }
  destruct a as [vs0|].
  - rewrite selected_arguments_criterion by done.
    case_decide as Hloose; [by intros [= <-]|].
    case_decide as Hsource; [|done].
    destruct (convert_parameters (Args w) vs0) as [e|converted] eqn:Hconv;
      [done|].
    intros [= <-]. eapply convert_parameters_typed; [|done].
    apply (f_equal length) in Hsource. by rewrite !length_fmap in Hsource.
  - unfold selected_arguments. by destruct (Args w).
Qed.

(** A wrapper with parameters is reached only by a bundle whose value
    types are its decayed parameter types or its source types. *)
Lemma selected_arguments_fit w (args : list arg) (vs : list value) :
  Args w ≠ [] →
  selected_arguments w (make_args_any args) = Some vs →
  type_of ∘ decay_arg <$> args = decay_t <$> Args w ∨
  type_of ∘ decay_arg <$> args = map_to_source_type <$> Args w.
Proof.
  intros Hne. rewrite list_fmap_compose.
  destruct args as [|arg0 args]; cbn [make_args_any].
  { unfold selected_arguments. by destruct (Args w). }
  rewrite selected_arguments_criterion by done.
  case_decide as Hloose; [by left|]. case_decide as Hsource; [by right|done].
Qed.

(** X16: [publish] is type safe towards the callbacks.  Every
    invocation it makes is of a subscription of the published event and
    passes as many values as the callback declares parameters, each of
    the decayed type of its parameter.  A subscription that declares
    parameters is run only when the types of the published values are,
    position by position, its decayed parameter types or the source
    types of [map_to_source_type]. *)
Theorem publish_type_safe eventName args σ :
  ∃ new : list (callback_id * list value),
    calls (final (publish eventName args σ)) = calls σ ++ new ∧
    Forall (λ call,
              ∃ w, w ∈ callbacks_of (bus σ) eventName ∧
                   call.1 = id_ w ∧
                   type_of <$> call.2 = decay_t <$> Args w ∧
                   (Args w ≠ [] →
                    type_of ∘ decay_arg <$> args = decay_t <$> Args w ∨
                    type_of ∘ decay_arg <$> args =
                      map_to_source_type <$> Args w)) new.
Proof.
  eexists. split; [apply publish_calls|].
  apply Forall_forall. intros [id vs].
  rewrite list_elem_of_omap. intros (w & Hw & Hinv).
  unfold invocation in Hinv.
  destruct (selected_arguments w (make_args_any args)) as [vs'|] eqn:Hsel;
    [|done].
  injection Hinv as <- <-. exists w. split; [done|]. split; [done|].
  split; [by eapply selected_arguments_typed|].
  intros Hne. by eapply selected_arguments_fit.
Qed.

(** X8: what [publish] delivers does not depend on the logging flag:
    with verbose logging set either way, the same callbacks run on the
    same arguments and leave the same world. *)
Theorem publish_effects_ignore_verbose eventName args verbose σ :
  effects (final (publish eventName args
                    (final (setVerboseLogging verbose σ)))) =
  effects (final (publish eventName args σ)).
Proof.
  rewrite !publish_effects. cbn -[dispatch]. by apply dispatch_effects.
Qed.

End DeliveryProofs.

(** ** What is written *)

Section LoggingProofs.
Context {W : Type}.
Implicit Types (σ : Sys W) (b : EventBus W) (w : CallbackWrapper W).

Lemma logged_quiet l σ : verbose_logging_ (bus σ) = false → logged l σ = σ.
Proof. unfold logged. by intros ->. Qed.

Lemma dispatch_quiet wrappers a actual n σ :
  verbose_logging_ (bus σ) = false →
  out (final (dispatch wrappers a actual n σ)) = out σ.
Proof.
  revert n σ. induction wrappers as [|w rest IH]; intros n σ Hquiet; [done|].
  rewrite dispatch_cons. unfold mismatch_logged.
  destruct (selected_arguments w a) as [args|];
    [destruct (completes w args σ)|];
    rewrite ?logged_quiet by done; by rewrite IH.
Qed.

Lemma publish_quiet eventName args σ :
  verbose_logging_ (bus σ) = false →
  out (final (publish eventName args σ)) = out σ.
Proof.
  intros Hquiet. rewrite publish_unfold.
  destruct (callbacks_map_ (bus σ) !! eventName) as [[|w rest]|];
    cbn -[dispatch]; rewrite ?logged_quiet by done; try done.
  set (actual := type_of ∘ decay_arg <$> args).
  pose proof (dispatch_quiet (w :: rest) (make_args_any args) actual 0 σ Hquiet)
    as Hout.
  destruct (dispatch_returns (w :: rest) (make_args_any args) actual 0 σ)
    as (n' & σ' & Hd & Hb).
  rewrite Hd in Hout |- *. cbn [final] in *.
  by rewrite logged_quiet by by rewrite Hb.
Qed.

(** X9: while verbose logging is off, the bus writes nothing, neither
    to [std::cout] nor to [std::cerr]: over any sequence of calls that
    does not turn the flag on, the output stays as it was and the flag
    stays off. *)
Theorem run_quiet (ops : list (operation W)) σ :
  verbose_logging_ (bus σ) = false →
  Forall (λ op, turns_verbose_on op = false) ops →
  out (final (run ops σ)) = out σ ∧
  verbose_logging_ (bus (final (run ops σ))) = false.
Proof.
  revert σ. induction ops as [|op ops IH]; intros σ Hquiet Hops; [done|].
  apply Forall_cons in Hops as [Hop Hops].
  assert (∀ A (m : M W A),
    (∃ r σ1, m σ = Returns r σ1 ∧ out σ1 = out σ ∧
             verbose_logging_ (bus σ1) = false) →
    out (final ((m;; run ops) σ)) = out σ ∧
    verbose_logging_ (bus (final ((m;; run ops) σ))) = false) as Hstep.
  { intros A m (r & σ1 & Hm & Hout & Hquiet1).
    unfold mbind, M_bind. rewrite Hm, <- Hout. by apply IH. }
  destruct op; cbn [run].
  - pose proof (subscribe_unfold eventName signature f σ) as Hsub.
    cbv zeta in Hsub. rewrite Hquiet in Hsub.
    match type of Hsub with _ = Returns _ ?s1 => set (σ1 := s1) in * end.
    destruct (IH σ1) as [Hout Hflag]; [done..|].
    unfold mbind, M_bind. rewrite Hsub.
    destruct (run ops σ1) as [ids σ'|e σ']; by split.
  - apply Hstep. rewrite unsubscribe_unfold.
    destruct (callbacks_map_ (bus σ) !! eventName) as [callbacks|];
      [|by eexists _, _].
    destruct (list_find _ callbacks) as [[i ?]|]; by eexists _, _.
  - apply Hstep. rewrite unsubscribe_all_unfold.
    destruct (callbacks_map_ (bus σ) !! eventName); by eexists _, _.
  - apply Hstep. by eexists _, _.
  - apply Hstep.
    pose proof (publish_quiet eventName args σ Hquiet) as Hout.
    destruct (publish_returns eventName args σ) as (σ1 & Hp & Hb).
    rewrite Hp in Hout. exists (), σ1. by rewrite Hb.
  - apply Hstep.
    pose proof (publish_quiet eventName args σ Hquiet) as Hout.
    destruct (publish_returns eventName args σ) as (σ1 & Hp & Hb).
    rewrite Hp in Hout. unfold publish_if_min_subscribers. run_monad.
    destruct (callbacks_map_ (bus σ) !! eventName) as [callbacks|];
      [|by eexists _, _].
    case_bool_decide; [by eexists _, _|]. rewrite Hp.
    eexists _, _. split; [done|]. by rewrite Hb.
  - apply Hstep. destruct verbose; [done|]. by eexists _, _.
Qed.








End LoggingProofs.

(** ** The ids in the registry *)

Section InvariantProofs.
Context {W : Type}.
Implicit Types (σ : Sys W) (b : EventBus W) (w : CallbackWrapper W).

Lemma registry_ok_new verbose : registry_ok (@EventBus_new W verbose).
Proof.
  split.
  - intros eventName w. unfold callbacks_of. cbn. rewrite lookup_empty.
    by intros ?%elem_of_nil.
  - intros e1 e2 i1 i2 w1 w2. unfold callbacks_of. cbn.
    by rewrite lookup_empty.
Qed.

(** A registry whose subscriptions all come from a registry that is in
    order, event by event and without repetition, is in order too. *)
Lemma registry_ok_shrink b b' (g : string → nat → nat) :
  (∀ eventName j1 j2, g eventName j1 = g eventName j2 → j1 = j2) →
  next_id_ b' = next_id_ b →
  (∀ eventName j w,
     callbacks_of b' eventName !! j = Some w →
     callbacks_of b eventName !! g eventName j = Some w) →
  registry_ok b → registry_ok b'.
Proof.
  intros Hinj Hnext Hfrom [Hissued Hunique]. split.
  - intros eventName w (j & Hj)%list_elem_of_lookup. rewrite Hnext.
    apply (Hissued eventName). apply list_elem_of_lookup.
    exists (g eventName j). by apply Hfrom.
  - intros e1 e2 i1 i2 w1 w2 H1%Hfrom H2%Hfrom Hid.
    destruct (Hunique _ _ _ _ _ _ H1 H2 Hid) as [<- Hg].
    split; [done|]. by apply (Hinj e1).
Qed.

Lemma registry_ok_subscribe eventName signature (f : callback W) σ :
  registry_ok (bus σ) →
  (next_id_ (bus σ) + 1 ≤ SIZE_MAX)%N →
  registry_ok (bus (final (subscribe eventName signature f σ))).
Proof.
  intros [Hissued Hunique] Hroom.
  rewrite subscribe_unfold. cbv zeta. cbn [final bus].
  rewrite size_t_wrap_small by done.
  set (id := (next_id_ (bus σ) + 1)%N).
  set (w := create_wrapper_from_function id signature f).
  set (b' := {| next_id_ := id |}).
  assert (∀ name j w',
    callbacks_of b' name !! j = Some w' →
    callbacks_of (bus σ) name !! j = Some w' ∨
    name = eventName ∧ j = length (callbacks_of (bus σ) eventName) ∧ w' = w)
    as Hfrom.
  { intros name j w'. unfold callbacks_of. subst b'. cbn.
    destruct (decide (eventName = name)) as [<-|Hne].
    - rewrite lookup_insert_eq. cbn.
      intros [?|[Hlen Hlast]]%lookup_app_Some; [by left|right].
      destruct (j - length (default [] (callbacks_map_ (bus σ) !! eventName)))
        as [|k] eqn:Hk; [|done].
      injection Hlast as <-. split; [done|]. split; [lia|done].
    - rewrite lookup_insert_ne by done. by left. }
  assert (∀ name j w', callbacks_of (bus σ) name !! j = Some w' →
                       (0 < id_ w' < id)%N) as Hold.
  { intros name j w' Hj.
    assert (w' ∈ callbacks_of (bus σ) name) as Hin
      by (apply list_elem_of_lookup; by exists j).
    specialize (Hissued _ _ Hin). subst id. lia. }
  split.
  - intros name w' (j & Hj)%list_elem_of_lookup. change (next_id_ b') with id.
    destruct (Hfrom _ _ _ Hj) as [Hj'|(_ & _ & ->)].
    + specialize (Hold _ _ _ Hj'). lia.
    + cbn. subst id. lia.
  - intros e1 e2 i1 i2 w1 w2 H1 H2 Hid.
    destruct (Hfrom _ _ _ H1) as [H1'|(-> & -> & ->)],
             (Hfrom _ _ _ H2) as [H2'|(-> & -> & ->)].
    + by apply (Hunique _ _ _ _ _ _ H1' H2').
    + specialize (Hold _ _ _ H1'). cbn in Hid. lia.
    + specialize (Hold _ _ _ H2'). cbn in Hid. lia.
    + done.
Qed.

Lemma registry_ok_unsubscribe eventName id σ :
  registry_ok (bus σ) →
  registry_ok (bus (final (unsubscribe eventName id σ))).
Proof.
  intros Hok. rewrite unsubscribe_unfold.
  destruct (callbacks_map_ (bus σ) !! eventName) as [callbacks|] eqn:Hlook;
    [|done].
  destruct (list_find _ callbacks) as [[i ?]|]; [|done]. cbn [final bus].
  apply (registry_ok_shrink (bus σ) _
           (λ name j, if decide (name = eventName)
                      then (if decide (j < i) then j else S j) else j));
    [| done | | done].
  - intros name j1 j2. repeat case_decide; lia.
  - intros name j w. unfold callbacks_of. cbn.
    destruct (decide (name = eventName)) as [->|Hne].
    + rewrite lookup_insert_eq, Hlook. cbn. case_decide.
      * by rewrite list_lookup_delete_lt.
      * by rewrite list_lookup_delete_ge by lia.
    + by rewrite lookup_insert_ne.
Qed.

Lemma registry_ok_unsubscribe_all eventName σ :
  registry_ok (bus σ) →
  registry_ok (bus (final (unsubscribe_all eventName σ))).
Proof.
  intros Hok. rewrite unsubscribe_all_unfold.
  destruct (callbacks_map_ (bus σ) !! eventName) as [callbacks|] eqn:Hlook;
    [|done]. cbn [final bus].
  apply (registry_ok_shrink (bus σ) _ (λ _ j, j)); [done..| |done].
  intros name j w. unfold callbacks_of. cbn.
  destruct (decide (name = eventName)) as [->|Hne].
  - by rewrite lookup_delete_eq.
  - by rewrite lookup_delete_ne.
Qed.

Lemma registry_ok_clear σ :
  registry_ok (bus σ) → registry_ok (bus (final (clear σ))).
Proof.
  intros Hok. cbn.
  apply (registry_ok_shrink (bus σ) _ (λ _ j, j)); [done..| |done].
  intros name j w. unfold callbacks_of.
  change (callbacks_map_ (bus (final (clear σ)))) with (∅ : gmap string (list (CallbackWrapper W))).
  by rewrite lookup_empty.
Qed.

Lemma registry_ok_setVerboseLogging verbose σ :
  registry_ok (bus σ) →
  registry_ok (bus (final (setVerboseLogging verbose σ))).
Proof.
  intros Hok. cbn. by apply (registry_ok_shrink (bus σ) _ (λ _ j, j)).
Qed.

Lemma ids_unique_NoDup b eventName :
  ids_unique b → NoDup (ids_of b eventName).
Proof.
  intros Hunique. apply NoDup_alt. intros i j id.
  unfold ids_of. fold (callbacks_of b eventName).
  intros (w1 & -> & H1)%list_lookup_fmap_Some (w2 & Hid & H2)%list_lookup_fmap_Some.
  by destruct (Hunique _ _ _ _ _ _ H1 H2 Hid).
Qed.

Lemma run_registry_ok (ops : list (operation W)) σ :
  registry_ok (bus σ) →
  (next_id_ (bus σ) + N.of_nat (count_subscribes ops) ≤ SIZE_MAX)%N →
  registry_ok (bus (final (run ops σ))).
Proof.
  revert σ. induction ops as [|op ops IH]; intros σ Hok Hroom; [done|].
  rewrite count_subscribes_cons in Hroom.
  assert (∀ A (m : M W A),
    is_subscribe op = false →
    (∃ r σ1, m σ = Returns r σ1 ∧ next_id_ (bus σ1) = next_id_ (bus σ)) →
    registry_ok (bus (final (m σ))) →
    registry_ok (bus (final ((m;; run ops) σ)))) as Hother.
  { intros A m Hop (r & σ1 & Hm & Hnext) Hok1. rewrite Hop in Hroom.
    unfold mbind, M_bind. rewrite Hm in Hok1 |- *.
    apply IH; [done|]. rewrite Hnext. lia. }
  destruct op; cbn [run is_subscribe] in *.
  - pose proof (registry_ok_subscribe eventName signature f σ Hok) as Hok1.
    pose proof (subscribe_unfold eventName signature f σ) as Hsub.
    cbv zeta in Hsub. rewrite Hsub in Hok1. cbn [final] in Hok1.
    unfold mbind, M_bind. rewrite Hsub.
    match type of Hsub with _ = Returns _ ?s1 => set (σ1 := s1) in * end.
    specialize (IH σ1).
    destruct (run ops σ1) as [ids σ'|e σ']; cbn [final] in *.
    all: apply IH; [apply Hok1; lia|].
    all: subst σ1; cbn; rewrite size_t_wrap_small by lia; lia.
  - apply Hother; [done|apply unsubscribe_next_id|].
    by apply registry_ok_unsubscribe.
  - apply Hother; [done|apply unsubscribe_all_next_id|].
    by apply registry_ok_unsubscribe_all.
  - apply Hother; [done|by eexists _, _|]. by apply registry_ok_clear.
  - destruct (publish_returns eventName args σ) as (σ1 & Hp & Hb).
    apply Hother; [done| |].
    + exists (), σ1. by rewrite Hb.
    + rewrite Hp. cbn [final]. by rewrite Hb.
  - destruct (publish_if_min_subscribers_returns eventName min_subscribers
                args σ) as (r & σ1 & Hp & Hb).
    apply Hother; [done| |].
    + exists r, σ1. by rewrite Hb.
    + rewrite Hp. cbn [final]. by rewrite Hb.
  - apply Hother; [done|by eexists _, _|].
    by apply registry_ok_setVerboseLogging.
Qed.

(** X11: the bus keeps its ids apart.  If every stored id lies between
    1 and the id counter and no id is stored twice (as on a new bus),
    then after any sequence of calls that does not take the counter
    past [SIZE_MAX] the same holds again; in particular the ids stored
    under an event are pairwise distinct. *)
Theorem registry_ids_stay_unique (ops : list (operation W)) σ :
  registry_ok (bus σ) →
  (next_id_ (bus σ) + N.of_nat (count_subscribes ops) ≤ SIZE_MAX)%N →
  registry_ok (bus (final (run ops σ))) ∧
  ∀ eventName, NoDup (ids_of (bus (final (run ops σ))) eventName).
Proof.
  intros Hok Hroom.
  pose proof (run_registry_ok ops σ Hok Hroom) as Hok'.
  split; [done|]. intros eventName. apply ids_unique_NoDup, Hok'.
Qed.

(** X12: an id belongs to the event it was subscribed to.  On a bus
    whose ids are apart, [unsubscribe] with that id and the name of
    another event returns false and changes nothing. *)
Theorem unsubscribe_other_event eventName other id σ :
  registry_ok (bus σ) →
  id ∈ ids_of (bus σ) eventName →
  other ≠ eventName →
  unsubscribe other id σ = Returns false σ.
Proof.
  intros [_ Hunique] Hin Hne. apply unsubscribe_absent. intros Hother.
  unfold ids_of in Hin, Hother.
  fold (callbacks_of (bus σ) eventName) in Hin.
  fold (callbacks_of (bus σ) other) in Hother.
  apply list_elem_of_fmap in Hin as (w1 & -> & (i1 & H1)%list_elem_of_lookup).
  apply list_elem_of_fmap in Hother as (w2 & Hid & (i2 & H2)%list_elem_of_lookup).
  destruct (Hunique _ _ _ _ _ _ H1 H2 Hid) as [Heq _]. by apply Hne.
Qed.

End InvariantProofs.

(** ** The queries together *)

Section QueryProofs.
Context {W : Type}.
Implicit Types (σ : Sys W) (b : EventBus W) (w : CallbackWrapper W).

Lemma scan_unsubscribed (l : list (string * list (CallbackWrapper W))) stats :
  (filter subscribed l).*1 = [] → foldl count_entry stats l = stats.
Proof.
  induction l as [|[name cbs] l IH]; [done|].
  rewrite filter_cons. unfold subscribed at 1. cbn [snd].
  destruct cbs as [|w cbs].
  - rewrite decide_False by (by intros []). cbn [foldl].
    by rewrite count_entry_nil.
  - by rewrite decide_True.
Qed.

Lemma sum_of_counts b (l : list (string * list (CallbackWrapper W))) :
  (∀ pair, pair ∈ l → getCallbackCount b pair.1 = length pair.2) →
  sum_list_with (λ pair, length pair.2) l =
    sum_list_with (getCallbackCount b) (filter subscribed l).*1.
Proof.
  induction l as [|[name cbs] l IH]; intros Hcount; [done|].
  rewrite filter_cons. unfold subscribed at 1. cbn [snd sum_list_with].
  rewrite IH by (intros pair Hin; apply Hcount; by apply elem_of_cons; right).
  destruct cbs as [|w cbs].
  - by rewrite decide_False by (by intros []).
  - rewrite decide_True by done. cbn [fmap list_fmap fst sum_list_with].
    assert ((name, w :: cbs) ∈ (name, w :: cbs) :: l) as Hhere
      by apply list_elem_of_here.
    apply Hcount in Hhere. cbn [fst snd] in Hhere. by rewrite Hhere.
Qed.

(** X13: the answers of the queries fit together.  [getStats] counts as
    many events as [getAllEventNames] lists and as many callbacks as
    the listed events have by [getCallbackCount]; an event is
    registered exactly when it is listed, and exactly when its count is
    positive; if some event is listed, the most subscribed event is a
    registered one; and if none is listed, also because every entry was
    emptied by [unsubscribe], the statistics are all zero with an empty
    name. *)
Theorem getStats_agrees_with_queries b :
  total_events (getStats b) = length (getAllEventNames b) ∧
  total_callbacks (getStats b) =
    sum_list_with (getCallbackCount b) (getAllEventNames b) ∧
  (∀ eventName,
     isEventRegistered b eventName = true ↔
     eventName ∈ getAllEventNames b) ∧
  (∀ eventName,
     isEventRegistered b eventName = true ↔
     0 < getCallbackCount b eventName) ∧
  (getAllEventNames b ≠ [] →
   isEventRegistered b (most_subscribed_event (getStats b)) = true) ∧
  (getAllEventNames b = [] →
   getStats b =
     {| total_events := 0; total_callbacks := 0;
        max_callbacks_per_event := 0; most_subscribed_event := "" |}).
Proof.
  assert (∀ eventName,
    isEventRegistered b eventName = true ↔
    0 < getCallbackCount b eventName) as Hpositive.
  { intros eventName.
    rewrite isEventRegistered_callbacks_of, getCallbackCount_callbacks_of.
    destruct (callbacks_of b eventName); cbn; [split; [done|lia]|].
    split; [lia|done]. }
  assert (∀ eventName,
    isEventRegistered b eventName = true ↔
    eventName ∈ getAllEventNames b) as Hlisted.
  { intros eventName.
    by rewrite isEventRegistered_true, elem_of_getAllEventNames. }
  destruct (getStats_spec b) as (_ & Hc & Hle & Hmax). cbv zeta in *.
  split.
  { unfold getStats.
    match goal with |- context [foldl count_entry ?s0 ?l] =>
      destruct (stats_scan l s0) as (He & _) end.
    cbv zeta in He. rewrite He, getAllEventNames_unfold, length_fmap. done. }
  split.
  { rewrite Hc, getAllEventNames_unfold. apply sum_of_counts.
    intros [name cbs] Hin%elem_of_map_to_list. unfold getCallbackCount. cbn.
    by rewrite Hin. }
  split; [done|]. split; [done|]. split.
  - intros Hsome. apply Hpositive. rewrite Hmax.
    assert (∃ name, name ∈ getAllEventNames b) as [name Hin].
    { destruct (getAllEventNames b) as [|name names]; [done|].
      exists name. apply list_elem_of_here. }
    apply Hlisted, Hpositive in Hin. specialize (Hle name). lia.
  - intros Hnone. rewrite getAllEventNames_unfold in Hnone.
    unfold getStats. by apply scan_unsubscribed.
Qed.

Lemma run_subscribes_callbacks_of (ops : list (operation W)) eventName σ :
  Forall (λ op, is_subscribe op = true) ops →
  length (callbacks_of (bus (final (run ops σ))) eventName) =
    length (callbacks_of (bus σ) eventName)
      + length (filter (λ op, subscribes_to eventName op = true) ops).
Proof.
  revert σ. induction ops as [|op ops IH]; intros σ Hops; [cbn; lia|].
  apply Forall_cons in Hops as [Hop Hops].
  destruct op; try done. cbn [run].
  pose proof (subscribe_unfold eventName0 signature f σ) as Hsub.
  cbv zeta in Hsub.
  match type of Hsub with _ = Returns _ ?s1 => set (σ1 := s1) in * end.
  specialize (IH σ1 Hops). unfold mbind, M_bind. rewrite Hsub.
  assert (∀ σ2, final (run ops σ1) = σ2 →
    length (callbacks_of (bus σ2) eventName) =
      length (callbacks_of (bus σ) eventName)
        + length (filter (λ op, subscribes_to eventName op = true)
                    (Subscribe eventName0 signature f :: ops))) as Hfinal;
    [|by destruct (run ops σ1); apply Hfinal].
  intros σ2 <-.
  rewrite IH, filter_cons. cbn [subscribes_to].
  unfold callbacks_of at 1. subst σ1. cbn [bus callbacks_map_].
  destruct (decide (eventName0 = eventName)) as [->|Hne].
  - rewrite lookup_insert_eq, decide_True by by apply bool_decide_eq_true.
    cbn. fold (callbacks_of (bus σ) eventName). rewrite length_app. cbn. lia.
  - rewrite lookup_insert_ne by done.
    rewrite decide_False by (by intros ?%bool_decide_eq_true). done.
Qed.

(** X14: after a run of [subscribe] calls the count of an event is its
    count before plus the number of the calls that named it, and
    [unsubscribe_all] on the event then returns exactly that number. *)
Theorem subscribes_add_up (ops : list (operation W)) eventName σ :
  Forall (λ op, is_subscribe op = true) ops →
  getCallbackCount (bus (final (run ops σ))) eventName =
    getCallbackCount (bus σ) eventName
      + length (filter (λ op, subscribes_to eventName op = true) ops) ∧
  ∃ σ', unsubscribe_all eventName (final (run ops σ)) =
          Returns (getCallbackCount (bus σ) eventName
                   + length (filter (λ op, subscribes_to eventName op = true)
                               ops)) σ'.
Proof.
  intros Hops.
  pose proof (run_subscribes_callbacks_of ops eventName σ Hops) as Hlen.
  rewrite <- !getCallbackCount_callbacks_of in Hlen. split; [done|].
  rewrite unsubscribe_all_unfold, <- Hlen. unfold getCallbackCount.
  destruct (callbacks_map_ (bus (final (run ops σ))) !! eventName);
    by eexists.
Qed.

(** X15: a successful [unsubscribe] takes one subscription off the
    event's count and keeps the event's entry, also when that was the
    last subscription.  The emptied event is then not registered and
    not listed and [publish] runs nothing for it, but
    [publish_if_min_subscribers] with threshold 0 still returns true,
    unlike after [unsubscribe_all]. *)
Theorem unsubscribe_keeps_entry eventName id σ σ' :
  unsubscribe eventName id σ = Returns true σ' →
  S (getCallbackCount (bus σ') eventName) = getCallbackCount (bus σ) eventName ∧
  is_Some (callbacks_map_ (bus σ') !! eventName) ∧
  (∀ other, other ≠ eventName →
     callbacks_map_ (bus σ') !! other = callbacks_map_ (bus σ) !! other) ∧
  next_id_ (bus σ') = next_id_ (bus σ) ∧
  (∀ args, publish_if_min_subscribers eventName 0 args σ' =
             Returns true (final (publish eventName args σ'))) ∧
  (getCallbackCount (bus σ) eventName = 1 →
   isEventRegistered (bus σ') eventName = false ∧
   (eventName ∉ getAllEventNames (bus σ')) ∧
   ∀ args, effects (final (publish eventName args σ')) = effects σ').
Proof.
  intros Hun.
  destruct (decide (id ∈ ids_of (bus σ) eventName)) as [Hin|Hnotin];
    [|by rewrite unsubscribe_absent in Hun].
  destruct (unsubscribe_present eventName id σ Hin)
    as (before & w & after & Hlook & Hid & Hbefore & Hun').
  rewrite Hun' in Hun. injection Hun as <-.
  assert (callbacks_map_ (bus (with_callbacks eventName (before ++ after) σ))
            !! eventName = Some (before ++ after)) as Hlook'
    by (cbn; apply lookup_insert_eq).
  unfold getCallbackCount. rewrite Hlook, Hlook'.
  split; [rewrite !length_app; cbn; lia|]. split; [by eexists|]. split.
  { intros other Hne. cbn. by rewrite lookup_insert_ne. }
  split; [done|]. split.
  { intros args. unfold publish_if_min_subscribers. run_monad.
    rewrite lookup_insert_eq.
    rewrite bool_decide_eq_false_2 by lia.
    destruct (publish_returns eventName args
                (with_callbacks eventName (before ++ after) σ))
      as (σ'' & Hp & _).
    by rewrite Hp. }
  rewrite length_app. cbn. intros Hone.
  assert (before ++ after = []) as Hnil.
  { destruct before, after; cbn in Hone; try done; lia. }
  set (σ' := with_callbacks eventName (before ++ after) σ) in *.
  assert (callbacks_of (bus σ') eventName = []) as Hnone
    by (unfold callbacks_of; by rewrite Hlook', Hnil).
  split.
  { apply not_true_iff_false.
    intros Hreg%isEventRegistered_callbacks_of. by apply Hreg. }
  split.
  { intros Hlisted%elem_of_getAllEventNames_callbacks_of. by apply Hlisted. }
  intros args. by apply publish_nothing.
Qed.

End QueryProofs.

(** ** The theorems at concrete inputs *)

Lemma subscribe_unsubscribe_round_trip_witness :
  ∃ id σ1 σ2,
    subscribe "e" [] counting (two_subscribers false) = Returns id σ1 ∧
    unsubscribe "e" id σ1 = Returns true σ2 ∧
    (∀ name, callbacks_of (bus σ2) name =
             callbacks_of (bus (two_subscribers false)) name) ∧
    (is_Some (callbacks_map_ (bus (two_subscribers false)) !! "e") →
     callbacks_map_ (bus σ2) = callbacks_map_ (bus (two_subscribers false))) ∧
    next_id_ (bus σ2) = id ∧
    effects σ2 = effects (two_subscribers false).
Proof.
  apply (subscribe_unsubscribe_round_trip "e" [] counting
           (two_subscribers false)).
  change (3%N ∉ [1%N; 2%N]). apply (bool_decide_unpack _). vm_compute.
  exact I.
Defined.


Lemma try_invoke_delivers_published_values_witness :
  1%N = id_ text_counting ∧
  Forall2 delivered_as [VConstCharPtr (Some "hi")] [VString "hi"].
Proof.
  apply (try_invoke_delivers_published_values text_counting
           [VConstCharPtr (Some "hi")] [VString "hi"] 1%N (fresh false 0)).
  - vm_compute. discriminate.
  - vm_compute. reflexivity.
Defined.

Lemma run_quiet_witness :
  out (final (run silent_client (fresh false 0))) = out (fresh false 0) ∧
  verbose_logging_ (bus (final (run silent_client (fresh false 0)))) = false.
Proof.
  apply (run_quiet silent_client (fresh false 0)).
  - reflexivity.
  - repeat constructor.
Defined.


Lemma registry_ids_stay_unique_witness :
  registry_ok (bus (final (run busy_client (fresh false 0)))) ∧
  ∀ eventName,
    NoDup (ids_of (bus (final (run busy_client (fresh false 0)))) eventName).
Proof.
  apply (registry_ids_stay_unique busy_client (fresh false 0)).
  - apply registry_ok_new.
  - vm_compute. discriminate.
Defined.

Lemma unsubscribe_other_event_witness :
  unsubscribe "f" 2%N (two_subscribers false) =
    Returns false (two_subscribers false).
Proof.
  apply (unsubscribe_other_event "e" "f" 2%N (two_subscribers false)).
  - apply (run_registry_ok
             [Subscribe "e" [] throwing; Subscribe "e" [] counting]
             (fresh false 0)); [apply registry_ok_new|].
    vm_compute. discriminate.
  - change (2%N ∈ [1%N; 2%N]). apply (bool_decide_unpack _). vm_compute.
    exact I.
  - discriminate.
Defined.

Lemma subscribes_add_up_witness :
  getCallbackCount (bus (final (run three_subscribes (fresh false 0)))) "e" =
    2 ∧
  ∃ σ', unsubscribe_all "e" (final (run three_subscribes (fresh false 0))) =
          Returns 2 σ'.
Proof.
  apply (subscribes_add_up three_subscribes "e" (fresh false 0)).
  repeat constructor.
Defined.

Lemma unsubscribe_keeps_entry_witness :
  S (getCallbackCount (bus (final (unsubscribe "e" 1%N one_subscriber))) "e") =
    getCallbackCount (bus one_subscriber) "e" ∧
  is_Some (callbacks_map_ (bus (final (unsubscribe "e" 1%N one_subscriber)))
             !! "e") ∧
  (∀ other, other ≠ "e" →
     callbacks_map_ (bus (final (unsubscribe "e" 1%N one_subscriber))) !! other =
     callbacks_map_ (bus one_subscriber) !! other) ∧
  next_id_ (bus (final (unsubscribe "e" 1%N one_subscriber))) =
    next_id_ (bus one_subscriber) ∧
  (∀ args,
     publish_if_min_subscribers "e" 0 args
       (final (unsubscribe "e" 1%N one_subscriber)) =
     Returns true
       (final (publish "e" args (final (unsubscribe "e" 1%N one_subscriber))))) ∧
  (getCallbackCount (bus one_subscriber) "e" = 1 →
   isEventRegistered (bus (final (unsubscribe "e" 1%N one_subscriber))) "e" =
     false ∧
   ("e" ∉ getAllEventNames (bus (final (unsubscribe "e" 1%N one_subscriber)))) ∧
   ∀ args,
     effects (final (publish "e" args
                       (final (unsubscribe "e" 1%N one_subscriber)))) =
     effects (final (unsubscribe "e" 1%N one_subscriber))).
Proof.
  apply (unsubscribe_keeps_entry "e" 1%N one_subscriber
           (final (unsubscribe "e" 1%N one_subscriber))).
  vm_compute. reflexivity.
Defined.
